(** * faim-hcs stitching utilities: a shallow embedding and its properties

    The development follows [src/faim_hcs/stitching/stitching_utils.py]:
    the three fusion policies ([fuse_linear], [fuse_mean], [fuse_sum]), the
    warp engine ([translate_tiles_2d]), the block assembler
    ([assemble_chunk]) and the origin normaliser ([shift_to_origin]).

    numpy arrays are a dtype tag, a shape and a flat row-major buffer;
    integer samples are [Z] with the dtype's wrap-around written out;
    floating-point weights are IEEE 754 values of [SpecFloat] at the
    precision numpy uses (binary32 or binary64); Python objects that are
    mutated through references (the tiles) live in an explicit store.

    The pixel samples are of an integer dtype (uint8 ... int64); tiles of
    floating-point samples are outside this model.  The external library
    functions ([skimage.transform.warp],
    [scipy.ndimage.distance_transform_edt]) are arguments of the functions
    that call them. *)

From Stdlib Require Import ZArith List Bool Lia SpecFloat.
From stdpp Require Import gmap list.

Open Scope Z_scope.

(** ** Python exceptions and a state-and-exception monad *)

Inductive exn : Type :=
| ValueError
| KeyError
| IndexError.

Inductive result (A : Type) : Type :=
| Ok (a : A)
| Raise (e : exn).

Arguments Ok {A} a.
Arguments Raise {A} e.

(** A computation over a mutable world [W]: it returns a value or raises,
    and in both cases leaves the world as it was when it stopped. *)
Definition M (W A : Type) : Type := W -> result A * W.

Definition mret {W A} (a : A) : M W A := fun w => (Ok a, w).

Definition mraise {W A} (e : exn) : M W A := fun w => (Raise e, w).

Definition mbind {W A B} (c : M W A) (k : A -> M W B) : M W B :=
  fun w => match c w with
           | (Ok a, w') => k a w'
           | (Raise e, w') => (Raise e, w')
           end.

Definition lift_result {W A} (r : result A) : M W A := fun w => (r, w).

Notation "'do' x <- c ; k" := (mbind c (fun x => k))
  (at level 10, x name, c at level 100, k at level 200).
Notation "'do' ' p <- c ; k" := (mbind c (fun x => match x with p => k end))
  (at level 10, p pattern, c at level 100, k at level 200).

(** [for x in xs: body x] *)
Fixpoint for_each {W A} (xs : list A) (body : A -> M W unit) : M W unit :=
  match xs with
  | [] => mret tt
  | x :: rest => do _ <- body x; for_each rest body
  end.

(** [[f x for x in xs]] *)
Fixpoint list_comprehension {W A B} (xs : list A) (f : A -> M W B) : M W (list B) :=
  match xs with
  | [] => mret []
  | x :: rest => do v <- f x; do vs <- list_comprehension rest f; mret (v :: vs)
  end.

(** ** numpy arrays *)

(** An array is its dtype tag, its shape and its row-major buffer. *)
Record ndarray (T A : Type) : Type := NDArray {
  dtype : T;
  shape : list nat;
  data : list A
}.

Arguments NDArray {T A} dtype shape data.
Arguments dtype {T A} n.
Arguments shape {T A} n.
Arguments data {T A} n.

(** Integer sample dtypes. *)
Inductive int_dtype : Type :=
| uint8 | uint16 | uint32 | uint64
| int8 | int16 | int32 | int64.

Definition bits (dt : int_dtype) : Z :=
  match dt with
  | uint8 | int8 => 8
  | uint16 | int16 => 16
  | uint32 | int32 => 32
  | uint64 | int64 => 64
  end.

Definition signed (dt : int_dtype) : bool :=
  match dt with
  | int8 | int16 | int32 | int64 => true
  | _ => false
  end.

(** The value an integer takes when stored in [dt] (two's complement). *)
Definition wrap (dt : int_dtype) (v : Z) : Z :=
  if signed dt
  then (v + 2 ^ (bits dt - 1)) mod 2 ^ bits dt - 2 ^ (bits dt - 1)
  else v mod 2 ^ bits dt.

Definition in_range (dt : int_dtype) (v : Z) : Prop :=
  if signed dt
  then - 2 ^ (bits dt - 1) <= v < 2 ^ (bits dt - 1)
  else 0 <= v < 2 ^ bits dt.

(** ** Tiles *)

(** Modelled from the spec: [faim_hcs/stitching/Tile.py] is not among the
    sources.  A tile position is the five integer coordinates (time,
    channel, z, y, x). *)
Record TilePosition : Type := mkTilePosition {
  time : Z;
  channel : Z;
  z : Z;
  y : Z;
  x : Z
}.

(** Modelled from the spec: [faim_hcs/stitching/Tile.py] is not among the
    sources.  A tile has a position, the (height, width) of its 2-D pixel
    data, and the pixel array that [load_data()] returns. *)
Record Tile : Type := mkTile {
  tile_shape : nat * nat;
  position : TilePosition;
  pixels : ndarray int_dtype Z
}.

(** Modelled from the spec: [Tile.get_position()] gives the five
    coordinates in the order (time, channel, z, y, x). *)
Definition get_position (t : Tile) : list Z :=
  let p := position t in [time p; channel p; z p; y p; x p].

(** Modelled from the spec: [Tile.get_yx_position()] gives (y, x). *)
Definition get_yx_position (t : Tile) : Z * Z :=
  (y (position t), x (position t)).

(** Modelled from the spec: [Tile.load_data()] returns the tile's 2-D pixel
    array and has no side effect. *)
Definition load_data (t : Tile) : ndarray int_dtype Z := pixels t.

(** ** The object store *)

(** Python lists hold references; a tile object is reached through its
    address in the store. *)
Abbreviation ref := nat (only parsing).
Abbreviation store := (gmap nat Tile) (only parsing).

Definition deref (r : ref) : M store Tile :=
  fun h => match h !! r with
           | Some t => (Ok t, h)
           | None => (Raise KeyError, h)
           end.

(** [tile.position = p] on the object at address [r]. *)
Definition set_position (r : ref) (p : TilePosition) : M store unit :=
  fun h => match h !! r with
           | Some t => (Ok tt, <[r := mkTile (tile_shape t) p (pixels t)]> h)
           | None => (Raise KeyError, h)
           end.

(** ** [shift_to_origin] *)

(** numpy turns the position tuples into int64 arrays. *)
Definition np_sub_int64 (a b : Z) : Z := wrap int64 (a - b).

(** [np.min(rows, axis=0)]; an empty stack has no minimum. *)
Definition np_min_axis0 (rows : list (list Z)) : result (list Z) :=
  match rows with
  | [] => Raise ValueError
  | r :: rs => Ok (fold_left (zip_with Z.min) rs r)
  end.

(** [copy(tiles)] is the shallow copy of Python's [copy] module: a new list
    holding the same references. *)
Definition copy {A} (l : list A) : list A := l.

(** The list of tiles is a list of references into the store; the loop
    assigns [tile.position] on the objects that the copied list points
    to. *)
Definition shift_to_origin (tiles : list ref) : M store (list ref) :=
  do positions <- list_comprehension tiles
                    (fun r => do tile <- deref r; mret (get_position tile));
  do min_tile_origin <- lift_result (np_min_axis0 positions);
  let shifted_tiles := copy tiles in
  do _ <- for_each shifted_tiles (fun r =>
            do tile <- deref r;
            let shifted_pos := zip_with np_sub_int64 (get_position tile) min_tile_origin in
            set_position r (mkTilePosition (nth 0 shifted_pos 0) (nth 1 shifted_pos 0)
                                           (nth 2 shifted_pos 0) (nth 3 shifted_pos 0)
                                           (nth 4 shifted_pos 0)));
  mret shifted_tiles.

(** ** IEEE 754 scalars *)

Inductive float_dtype : Type := float32 | float64.

Definition fprec (fd : float_dtype) : Z :=
  match fd with float32 => 24 | float64 => 53 end.

Definition femax (fd : float_dtype) : Z :=
  match fd with float32 => 128 | float64 => 1024 end.

Definition fzero : spec_float := S754_zero false.

(** Integer to float, rounding to nearest even. *)
Definition Z2F (fd : float_dtype) (v : Z) : spec_float :=
  binary_normalize (fprec fd) (femax fd) v 0 false.

Definition fone (fd : float_dtype) : spec_float := Z2F fd 1.

Definition B2F (b : bool) (fd : float_dtype) : spec_float :=
  if b then fone fd else fzero.

(** Float to float of another precision. *)
Definition F2F (fd : float_dtype) (v : spec_float) : spec_float :=
  match v with
  | S754_finite s m e =>
      binary_normalize (fprec fd) (femax fd) (cond_Zopp s (Zpos m)) e s
  | _ => v
  end.

Definition fadd (fd : float_dtype) : spec_float -> spec_float -> spec_float :=
  SFadd (fprec fd) (femax fd).
Definition fmul (fd : float_dtype) : spec_float -> spec_float -> spec_float :=
  SFmul (fprec fd) (femax fd).
Definition fdiv (fd : float_dtype) : spec_float -> spec_float -> spec_float :=
  SFdiv (fprec fd) (femax fd).

Definition is_nan (v : spec_float) : bool :=
  match v with S754_nan => true | _ => false end.

(** Truncation toward zero of a finite float. *)
Definition Ftrunc (v : spec_float) : Z :=
  match v with
  | S754_finite s m e =>
      cond_Zopp s (match e with
                   | Z0 => Zpos m
                   | Zpos _ => Zpos m * 2 ^ e
                   | Zneg p => Zpos m / 2 ^ Zpos p
                   end)
  | _ => 0
  end.

(** ** Casts ([astype]) *)

(** Float to integer dtype: the C cast truncates toward zero.  Outside the
    dtype's range and on NaN or infinities C leaves the cast undefined; the
    model wraps the truncation and sends NaN and infinities to 0. *)
Definition F2I (dt : int_dtype) (v : spec_float) : Z := wrap dt (Ftrunc v).

(** Float to bool: every value other than zero is [True], NaN included. *)
Definition F2B (v : spec_float) : bool :=
  match v with S754_zero _ => false | _ => true end.

(** ** Array helpers *)

Definition iarray : Type := ndarray int_dtype Z.
Definition barray : Type := ndarray unit bool.
Definition farray : Type := ndarray float_dtype spec_float.

Definition numel (sh : list nat) : nat := fold_right Nat.mul 1%nat sh.

(** [a.shape[0]] and the number of elements of one entry along axis 0. *)
Definition len0 {T A} (a : ndarray T A) : nat := hd 0%nat (shape a).
Definition plane {T A} (a : ndarray T A) : nat := numel (tl (shape a)).

Definition tabulate {A} (n : nat) (f : nat -> A) : list A := map f (seq 0 n).

(** [a[i]] for [i] along axis 0. *)
Definition take0 {T A} (a : ndarray T A) (i : nat) : ndarray T A :=
  NDArray (dtype a) (tl (shape a)) (firstn (plane a) (skipn (i * plane a) (data a))).

(** [np.array(planes)]: stack equally shaped arrays along a new axis 0. *)
Definition np_array {T A} (dt : T) (planes : list (ndarray T A)) : ndarray T A :=
  match planes with
  | [] => NDArray dt [0%nat] []
  | p :: _ => NDArray dt (length planes :: shape p) (concat (map data planes))
  end.

(** [a.astype(dt)] between integer dtypes. *)
Definition astype_int (dt : int_dtype) (a : iarray) : iarray :=
  NDArray dt (shape a) (map (wrap dt) (data a)).

(** [a.astype(dt)] from a float array to an integer dtype. *)
Definition astype_F2I (dt : int_dtype) (a : farray) : iarray :=
  NDArray dt (shape a) (map (F2I dt) (data a)).

(** [a.astype(bool)] from a float array. *)
Definition astype_F2B (a : farray) : barray :=
  NDArray tt (shape a) (map F2B (data a)).

(** [a.astype(np.float32)] from a bool array. *)
Definition astype_B2F (fd : float_dtype) (a : barray) : farray :=
  NDArray fd (shape a) (map (fun b => B2F b fd) (data a)).

(** The accumulator dtype of [np.sum] over an integer array: the platform
    integer of the same signedness. *)
Definition sum_dtype (dt : int_dtype) : int_dtype :=
  if signed dt then int64 else uint64.

(** [np.sum(a, axis=0)] on an integer array. *)
Definition np_sum_axis0_int (a : iarray) : iarray :=
  let sd := sum_dtype (dtype a) in
  NDArray sd (tl (shape a))
    (tabulate (plane a) (fun q =>
       fold_left (fun acc i => wrap sd (acc + nth (i * plane a + q) (data a) 0))
                 (seq 0 (len0 a)) 0)).

(** [np.sum(a, axis=0)] on a bool array: the count, as int64. *)
Definition np_sum_axis0_bool (a : barray) : iarray :=
  NDArray int64 (tl (shape a))
    (tabulate (plane a) (fun q =>
       fold_left (fun acc i => wrap int64 (acc + Z.b2z (nth (i * plane a + q) (data a) false)))
                 (seq 0 (len0 a)) 0)).

(** [np.sum(a, axis=0)] on a float array: starting from 0, the entries
    along axis 0 are added one after the other in the array's own
    precision. *)
Definition np_sum_axis0_float (a : farray) : farray :=
  NDArray (dtype a) (tl (shape a))
    (tabulate (plane a) (fun q =>
       fold_left (fun acc i => fadd (dtype a) acc (nth (i * plane a + q) (data a) fzero))
                 (seq 0 (len0 a)) fzero)).

(** [tiles * masks] for an integer array and a bool array: the integer
    dtype is kept. *)
Definition np_mul_int_bool (a : iarray) (m : barray) : iarray :=
  NDArray (dtype a) (shape a)
    (tabulate (length (data a)) (fun k =>
       wrap (dtype a) (nth k (data a) 0 * Z.b2z (nth k (data m) false)))).

(** numpy's result type of an integer array times a float array. *)
Definition result_type (dt : int_dtype) (fd : float_dtype) : float_dtype :=
  match fd with
  | float64 => float64
  | float32 => if bits dt <=? 16 then float32 else float64
  end.

(** [tiles * weights] for an integer array and a float array. *)
Definition np_mul_int_float (a : iarray) (w : farray) : farray :=
  let rd := result_type (dtype a) (dtype w) in
  NDArray rd (shape a)
    (tabulate (length (data a)) (fun k =>
       fmul rd (Z2F rd (nth k (data a) 0)) (F2F rd (nth k (data w) fzero)))).

(** [np.nan_to_num(w, nan=0, posinf=1, neginf=0)] on a float scalar. *)
Definition nan_to_num (fd : float_dtype) (v : spec_float) : spec_float :=
  match v with
  | S754_nan => Z2F fd 0
  | S754_infinity false => Z2F fd 1
  | S754_infinity true => Z2F fd 0
  | _ => v
  end.

(** [np.clip(w, 0, 1)] on a float scalar: [min(max(w, 0), 1)], where
    [max(a, b)] is [a] when [a > b] or [a] is NaN and [b] otherwise, and
    likewise for [min]. *)
Definition np_maximum (a b : spec_float) : spec_float :=
  if SFltb b a || is_nan a then a else b.
Definition np_minimum (a b : spec_float) : spec_float :=
  if SFltb a b || is_nan a then a else b.
Definition clip01 (fd : float_dtype) (v : spec_float) : spec_float :=
  np_minimum (np_maximum v (Z2F fd 0)) (Z2F fd 1).

Definition sanitize (fd : float_dtype) (w : farray) : farray :=
  NDArray (dtype w) (shape w) (map (fun v => clip01 fd (nan_to_num fd v)) (data w)).

(** ** Fusion policies *)

(** [np.true_divide(num, den, where=den > 0)] without [out=]: numpy
    allocates the result without initialising it and writes the quotient
    only where the condition holds, so elsewhere the result keeps what the
    fresh buffer happened to contain.  [uninit k] is that content at flat
    index [k]; [den] has the shape of one entry of [num] along axis 0 and
    is broadcast. *)
Definition true_divide_where (fd : float_dtype) (uninit : nat -> spec_float)
    (sh : list nat) (n : nat) (num : nat -> spec_float)
    (den : nat -> spec_float) (positive : nat -> bool) : farray :=
  NDArray fd sh
    (tabulate n (fun k =>
       let q := (k mod numel (tl sh))%nat in
       if positive q then fdiv fd (num k) (den q) else uninit k)).

(** [scipy.ndimage.distance_transform_edt] is an external function: the
    fusion takes it as an argument.  It maps a float32 image to the float64
    image of distances to the nearest zero entry. *)
Definition edt_fn : Type := farray -> farray.

(** [fuse_linear]: besides the two arrays of the source, the distance
    transform and the content [uninit] of the buffer that [np.true_divide]
    allocates are arguments.  The last line of the source,
    [np.sum(warped_tiles * weights, axis=0).astype(dtype)], is written once
    per branch, because the weights are float32 in one and bool in the
    other. *)
Definition fuse_linear (distance_transform_edt : edt_fn) (uninit : nat -> spec_float)
    (warped_tiles : iarray) (warped_masks : barray) : iarray :=
  let dtype := dtype warped_tiles in
  if (1 <? len0 warped_tiles)%nat then
    (* weights[i] = distance_transform_edt(warped_masks[i].astype(np.float32)),
       stored into a float32 array *)
    let weights : farray :=
      NDArray float32 (shape warped_masks)
        (tabulate (length (data warped_masks)) (fun k =>
           let i := (k / plane warped_masks)%nat in
           let q := (k mod plane warped_masks)%nat in
           F2F float32
             (nth q (data (distance_transform_edt
                             (astype_B2F float32 (take0 warped_masks i)))) fzero))) in
    let denominator := np_sum_axis0_float weights in
    let weights :=
      true_divide_where float32 uninit (shape weights) (length (data weights))
        (fun k => nth k (data weights) fzero)
        (fun q => nth q (data denominator) fzero)
        (fun q => SFltb (Z2F float32 0) (nth q (data denominator) fzero)) in
    let weights := sanitize float32 weights in
    astype_F2I dtype (np_sum_axis0_float (np_mul_int_float warped_tiles weights))
  else
    let weights := warped_masks in
    astype_int dtype (np_sum_axis0_int (np_mul_int_bool warped_tiles weights)).

(** [fuse_mean]: the masks are divided by their count as float64;
    [uninit] is the content of the buffer that [np.true_divide]
    allocates. *)
Definition fuse_mean (uninit : nat -> spec_float)
    (warped_tiles : iarray) (warped_masks : barray) : iarray :=
  let denominator := np_sum_axis0_bool warped_masks in
  let weights :=
    true_divide_where float64 uninit (shape warped_masks) (length (data warped_masks))
      (fun k => B2F (nth k (data warped_masks) false) float64)
      (fun q => Z2F float64 (nth q (data denominator) 0))
      (fun q => 0 <? nth q (data denominator) 0) in
  let weights := sanitize float64 weights in
  let fused_image := np_sum_axis0_float (np_mul_int_float warped_tiles weights) in
  astype_F2I (dtype warped_tiles) fused_image.

(** [fuse_sum]: the masks are not used. *)
Definition fuse_sum (warped_tiles : iarray) (warped_masks : barray) : iarray :=
  let fused_image := np_sum_axis0_int warped_tiles in
  astype_int (dtype warped_tiles) fused_image.

(** ** The warp engine *)

(** The entries of [block_info[None]] that the code reads. *)
Record block_info : Type := mkBlockInfo {
  array_location : list (Z * Z);
  chunk_location : list nat;
  chunk_shape : list nat
}.

(** [np.ones_like(a)] *)
Definition np_ones_like (a : iarray) : iarray :=
  NDArray (dtype a) (shape a) (map (fun _ => 1) (data a)).

(** [np.stack([a, b], axis=-1)] *)
Definition np_stack_last (a b : iarray) : iarray :=
  NDArray (dtype a) (shape a ++ [2%nat])
    (tabulate (2 * length (data a)) (fun k =>
       if (k mod 2 =? 0)%nat then nth (k / 2) (data a) 0 else nth (k / 2) (data b) 0)).

(** [a[..., c]] *)
Definition channel_of {T A} (d : A) (c : nat) (a : ndarray T A) : ndarray T A :=
  let nch := List.last (shape a) 1%nat in
  NDArray (dtype a) (removelast (shape a))
    (tabulate (numel (removelast (shape a))) (fun k => nth (k * nch + c) (data a) d)).

(** The resampler is an external function ([skimage.transform.warp]); the
    warp engine takes it as an argument.  It receives the stacked image,
    the translation (x, y) of the transform and the output shape. *)
Definition warp_fn (W : Type) : Type := iarray -> Z * Z -> list nat -> M W farray.

(** Modelled from the spec: [skimage.transform.warp] is an external
    library.  With [order=0], [cval=0], constant mode and a pure
    translation by whole pixels, the output pixel (row, col) of every
    channel is the input pixel (row + ty, col + tx) when that lies inside
    the input, and the fill value 0 otherwise; the output is float64 and
    has the requested y/x shape.  An empty image is rejected. *)
Definition skimage_warp {W : Type} : warp_fn W := fun image translation output_shape =>
  match shape image, output_shape with
  | [rows; cols; nch], [H; W'] =>
      if (numel (shape image) =? 0)%nat then mraise ValueError
      else
        mret (NDArray float64 [H; W'; nch]
          (tabulate (H * W' * nch) (fun k =>
             let c := (k mod nch)%nat in
             let col := ((k / nch) mod W')%nat in
             let row := (k / nch / W')%nat in
             let src_col := Z.of_nat col + fst translation in
             let src_row := Z.of_nat row + snd translation in
             if (0 <=? src_row) && (src_row <? Z.of_nat rows)
                && (0 <=? src_col) && (src_col <? Z.of_nat cols)
             then Z2F float64
                    (nth ((Z.to_nat src_row * cols + Z.to_nat src_col) * nch + c)
                         (data image) 0)
             else fzero)))
  | _, _ => mraise ValueError
  end.

(** [np.nan_to_num(masks, nan=False, posinf=True, neginf=False)] on a bool
    array: numpy returns arrays of a dtype that is not inexact as they
    are. *)
Definition nan_to_num_bool (masks : barray) : barray := masks.

(** [translate_tiles_2d]: the decorator that limits the BLAS threads does
    not change the result and is left out.  The two [append]s of the loop
    are the two components of the pairs that the comprehension collects. *)
Definition translate_tiles_2d {W : Type} (warp : warp_fn W) (bi : block_info)
    (yx_chunk_shape : list nat) (dtype : int_dtype) (tiles : list Tile)
    : M W (iarray * barray) :=
  match nth_error (array_location bi) 3, nth_error (array_location bi) 4 with
  | Some (y0, _), Some (x0, _) =>
      let chunk_yx_origin := (y0, x0) in
      do warped <- list_comprehension tiles (fun tile =>
          let tile_origin := get_yx_position tile in
          (* (chunk_yx_origin - tile_origin)[::-1] *)
          let translation :=
            (np_sub_int64 (snd chunk_yx_origin) (snd tile_origin),
             np_sub_int64 (fst chunk_yx_origin) (fst tile_origin)) in
          let tile_data := load_data tile in
          let mask := np_ones_like tile_data in
          do warped <- warp (np_stack_last tile_data mask) translation yx_chunk_shape;
          mret (astype_F2I dtype (channel_of fzero 0 warped),
                astype_F2B (channel_of fzero 1 warped)));
      let warped_tiles := map fst warped in
      let warped_masks := map snd warped in
      let warped_masks := nan_to_num_bool (np_array tt warped_masks) in
      mret (np_array dtype warped_tiles, warped_masks)
  | _, _ => mraise IndexError
  end.

(** ** The block assembler *)

(** [a[-2:]] *)
Definition last2 {A} (l : list A) : list A := skipn (length l - 2) l.

(** [np.zeros(shape, dtype)] *)
Definition np_zeros (sh : list nat) (dt : int_dtype) : iarray :=
  NDArray dt sh (repeat 0 (numel sh)).

(** [a[np.newaxis, np.newaxis, np.newaxis, ...]] *)
Definition newaxis3 {T A} (a : ndarray T A) : ndarray T A :=
  NDArray (dtype a) (1 :: 1 :: 1 :: shape a)%nat (data a).

Definition warp_func_t (W : Type) : Type :=
  block_info -> list nat -> int_dtype -> list Tile -> M W (iarray * barray).
Definition fuse_func_t (W : Type) : Type := iarray -> barray -> M W iarray.

(** [assemble_chunk]: [warp_func] and [fuse_func] are arbitrary
    computations over the world [W]. *)
Definition assemble_chunk {W : Type} (bi : block_info)
    (tile_map : gmap (list nat) (list Tile))
    (warp_func : warp_func_t W) (fuse_func : fuse_func_t W)
    (dtype : int_dtype) : M W iarray :=
  let chunk_location := chunk_location bi in
  let chunk_shape := chunk_shape bi in
  match tile_map !! chunk_location with
  | None => mraise KeyError
  | Some tiles =>
      if (0 <? length tiles)%nat then
        do '(warped_tiles, warped_masks) <-
          warp_func bi (last2 chunk_shape) dtype tiles;
        do fused <- fuse_func warped_tiles warped_masks;
        let stitched_img := astype_int dtype fused in
        mret (newaxis3 stitched_img)
      else
        mret (np_zeros chunk_shape dtype)
  end.

(** A pure fusion policy used as [fuse_func]. *)
Definition pure_fuse {W : Type} (f : iarray -> barray -> iarray) : fuse_func_t W :=
  fun t m => mret (f t m).

(** ** Example data *)

Definition const_image (dt : int_dtype) (h w : nat) (v : Z) : iarray :=
  NDArray dt [h; w] (repeat v (h * w)).

Definition tile_A (dt : int_dtype) : Tile :=
  mkTile (4, 4)%nat (mkTilePosition 0 0 0 0 0) (const_image dt 4 4 10).

Definition tile_B (dt : int_dtype) : Tile :=
  mkTile (4, 4)%nat (mkTilePosition 0 0 0 0 2) (const_image dt 4 4 20).

Definition block_4x6 : block_info :=
  mkBlockInfo [(0, 1); (0, 1); (0, 1); (0, 4); (0, 6)]
              [0; 0; 0; 0; 0]%nat [1; 1; 1; 4; 6]%nat.

Definition tile_map_AB (dt : int_dtype) : gmap (list nat) (list Tile) :=
  {[ [0; 0; 0; 0; 0]%nat := [tile_A dt; tile_B dt] ]}.

(** Columns 0-1 hold 10, columns 2-3 hold 15, columns 4-5 hold 20, in each
    of the four rows. *)
Definition expected_block (dt : int_dtype) : iarray :=
  NDArray dt [1; 1; 1; 4; 6]%nat
    (concat (repeat [10; 10; 15; 15; 20; 20] 4)).

(** A one-pixel uint16 tile at (time, channel, z, y, x) = (0, 0, 0, y, x). *)
Definition tile_at (ty tx : Z) : Tile :=
  mkTile (1, 1)%nat (mkTilePosition 0 0 0 ty tx) (const_image uint16 1 1 7).

(** A store holding one tile object, at address 0. *)
Definition one_tile_store : gmap nat Tile := {[ 0%nat := tile_at 5 7 ]}.

(** A store holding two tile objects. *)
Definition two_tile_store : gmap nat Tile :=
  {[ 0%nat := tile_at 5 7; 1%nat := tile_at 9 3 ]}.

(** The positions of the objects that a list of references points to. *)
Definition positions_of (h : gmap nat Tile) (refs : list nat) : list (option (list Z)) :=
  map (fun r => get_position <$> h !! r) refs.

(** The samples of all tiles at flat pixel index [q], in tile order. *)
Definition column {T A} (d : A) (a : ndarray T A) (q : nat) : list A :=
  map (fun i => nth (i * plane a + q)%nat (data a) d) (seq 0 (len0 a)).

Definition Zsum (l : list Z) : Z := fold_right Z.add 0 l.

(** A warp function and a fuse function that count their invocations in
    the world and then fail. *)
Definition counting_warp : warp_func_t nat :=
  fun _ _ _ _ calls => (Raise ValueError, S calls).
Definition counting_fuse : fuse_func_t nat :=
  fun _ _ calls => (Raise ValueError, S calls).

Definition empty_tile_map : gmap (list nat) (list Tile) :=
  {[ [0; 0; 0; 0; 0]%nat := [] ]}.

(** Modelled from the spec: [scipy.ndimage.distance_transform_edt] is an
    external library.  For a 2-D image it gives, at every non-zero entry,
    the Euclidean distance in pixels to the nearest zero entry, and 0 at
    the zero entries.  The distance is the float64 square root of the
    integer squared distance.  Where the image has no zero entry at all
    this definition gives infinity. *)
Definition edt_reference : edt_fn := fun img =>
  let width := nth 1 (shape img) 0%nat in
  let n := length (data img) in
  let is_zero q := negb (F2B (nth q (data img) fzero)) in
  let sqdist q q' :=
    let dr := Z.of_nat (q / width) - Z.of_nat (q' / width) in
    let dc := Z.of_nat (q mod width) - Z.of_nat (q' mod width) in
    dr * dr + dc * dc in
  NDArray float64 (shape img)
    (tabulate n (fun q =>
       if is_zero q then fzero
       else
         match fold_left (fun best q' =>
                 if is_zero q' then
                   match best with
                   | None => Some (sqdist q q')
                   | Some b => Some (Z.min b (sqdist q q'))
                   end
                 else best) (seq 0 n) None with
         | Some d2 => SFsqrt (fprec float64) (femax float64) (Z2F float64 d2)
         | None => S754_infinity false
         end)).



(** Three 1x2 uint8 tiles that all hold 100 at pixel 0, and two mask
    stacks for them. *)
Definition three_tiles_u8 : iarray :=
  NDArray uint8 [3; 1; 2]%nat [100; 1; 100; 2; 100; 3].
Definition masks_all_true : barray :=
  NDArray tt [3; 1; 2]%nat [true; true; true; true; true; true].
Definition masks_all_false : barray :=
  NDArray tt [3; 1; 2]%nat [false; false; false; false; false; false].

(** One 2x2 uint16 tile and its all-True mask. *)
Definition single_tile_u16 : iarray :=
  NDArray uint16 [1; 2; 2]%nat [5; 6; 7; 65535].
Definition single_mask_true : barray :=
  NDArray tt [1; 2; 2]%nat [true; true; true; true].



(** A pixel that no mask covers while the tiles hold non-zero samples
    there: one tile for mean fusion, two tiles for linear fusion. *)
Definition uncovered_one : iarray := NDArray uint16 [1; 1; 1]%nat [7].
Definition uncovered_one_mask : barray := NDArray tt [1; 1; 1]%nat [false].
Definition uncovered_two : iarray := NDArray uint16 [2; 1; 1]%nat [7; 9].
Definition uncovered_two_mask : barray := NDArray tt [2; 1; 1]%nat [false; false].

(** ** Exactly representable integers *)

(** [v] fits the mantissa of the float type [fd]. *)
Definition representable (fd : float_dtype) (v : Z) : Prop :=
  Z.abs v < 2 ^ fprec fd.

(** The float of precision [prec] whose value is the integer [p] of at
    most [prec] binary digits: the mantissa is [p] shifted left until it
    has [prec] digits. *)
Definition normal_form (prec : Z) (s : bool) (p : positive) : spec_float :=
  match Zpos (digits2_pos p) - prec with
  | Zneg k => S754_finite s (Pos.iter xO p k) (Zneg k)
  | _ => S754_finite s p 0
  end.

Definition is_zero (v : spec_float) : bool :=
  match v with S754_zero _ => true | _ => false end.

Definition finite_or_zero (v : spec_float) : bool :=
  match v with S754_zero _ | S754_finite _ _ _ => true | _ => false end.

(** [acc] is [v], up to the sign of a zero. *)
Definition same_value (acc v : spec_float) : Prop :=
  acc = v \/ (is_zero acc = true /\ is_zero v = true).

(** ** Reading a stack pixel by pixel *)

(** The sample of tile [i] at flat pixel index [q], and the mask entry
    there (the masks have the shape of the tiles). *)
Definition sample_at (tiles : iarray) (i q : nat) : Z :=
  nth (i * plane tiles + q) (data tiles) 0.
Definition mask_at (tiles : iarray) (masks : barray) (i q : nat) : bool :=
  nth (i * plane tiles + q) (data masks) false.

(** The distance transform of the mask of tile [i], at pixel [q]. *)
Definition edt_at (distance_transform_edt : edt_fn) (masks : barray) (i q : nat)
    : spec_float :=
  nth q (data (distance_transform_edt (astype_B2F float32 (take0 masks i)))) fzero.

(** Tiles and masks have one shape and their buffers fill it. *)
Definition well_shaped (tiles : iarray) (masks : barray) : Prop :=
  shape masks = shape tiles
  /\ length (data tiles) = (len0 tiles * plane tiles)%nat
  /\ length (data masks) = (len0 tiles * plane tiles)%nat.


(** [v] is a value of the dtype that the float product holds exactly:
    every value of a dtype of at most 32 bits, and the values below 2^53 in
    magnitude of a 64-bit dtype. *)
Definition exact_in_product (dt : int_dtype) (v : Z) : Prop :=
  in_range dt v /\ (bits dt = 64 -> Z.abs v < 2 ^ 53).

(** Two 1x2 uint16 tiles side by side: tile 0 covers pixel 0, tile 1
    covers pixel 1. *)
Definition side_by_side : iarray := NDArray uint16 [2; 1; 2]%nat [7; 0; 0; 9].
Definition side_by_side_masks : barray :=
  NDArray tt [2; 1; 2]%nat [true; false; false; true].


(** ** Origin normalisation on distinct objects *)

(** The tile with its position shifted by [origin], as the loop body of
    [shift_to_origin] rebuilds it. *)
Definition shifted_tile (origin : list Z) (t : Tile) : Tile :=
  let shifted_pos := zip_with np_sub_int64 (get_position t) origin in
  mkTile (tile_shape t)
         (mkTilePosition (nth 0 shifted_pos 0) (nth 1 shifted_pos 0)
                         (nth 2 shifted_pos 0) (nth 3 shifted_pos 0)
                         (nth 4 shifted_pos 0))
         (pixels t).

(** Coordinates far inside the int64 range, so that differences of two of
    them do not wrap. *)
Definition small_position (t : Tile) : Prop :=
  Forall (fun v => - 2 ^ 62 <= v < 2 ^ 62) (get_position t).

(** The references point to the tiles, one by one. *)
Definition points_to (h : gmap nat Tile) (refs : list nat) (ts : list Tile) : Prop :=
  Forall2 (fun r t => h !! r = Some t) refs ts.

(** [v] is a genuine value of the float type [fd]: zero, infinite, NaN, or
    finite with a canonical mantissa and exponent. *)
Definition is_valid (fd : float_dtype) (v : spec_float) : bool :=
  valid_binary (fprec fd) (femax fd) v.

(** Two 1x3 uint16 tiles with a gap between them: pixel 1 is covered by
    neither and both hold the fill value 0 there. *)
Definition gap_tiles : iarray := NDArray uint16 [2; 1; 3]%nat [7; 0; 0; 0; 0; 9].
Definition gap_masks : barray :=
  NDArray tt [2; 1; 3]%nat [true; false; false; false; false; true].

(** ** Reading the warp engine pixel by pixel *)

(** The place in tile [t] that block-local pixel (r, c) falls on, for a
    block whose origin is (y0, x0): (row, column) in the tile's own frame. *)
Definition source_place (y0 x0 : Z) (t : Tile) (r c : nat) : Z * Z :=
  (Z.of_nat r + np_sub_int64 y0 (y (position t)),
   Z.of_nat c + np_sub_int64 x0 (x (position t))).

(** The pixel lies inside the tile's pixel array. *)
Definition inside_tile (y0 x0 : Z) (t : Tile) (r c : nat) : bool :=
  let '(src_row, src_col) := source_place y0 x0 t r c in
  (0 <=? src_row) && (src_row <? Z.of_nat (nth 0 (shape (pixels t)) 0%nat))
  && (0 <=? src_col) && (src_col <? Z.of_nat (nth 1 (shape (pixels t)) 0%nat)).

(** The tile's sample at the place the pixel falls on. *)
Definition source_sample (y0 x0 : Z) (t : Tile) (r c : nat) : Z :=
  let '(src_row, src_col) := source_place y0 x0 t r c in
  nth (Z.to_nat src_row * nth 1 (shape (pixels t)) 0 + Z.to_nat src_col)%nat
      (data (pixels t)) 0.

(** What the tile contributes at the pixel: its sample there, stored in
    [dt], inside the tile and the fill value 0 outside. *)
Definition warped_sample (dt : int_dtype) (y0 x0 : Z) (t : Tile) (r c : nat) : Z :=
  if inside_tile y0 x0 t r c then wrap dt (source_sample y0 x0 t r c) else 0.

(** The pixel array of a tile is 2-D, not empty, its buffer fills its
    shape, and float64 holds every sample exactly. *)
Definition loadable (t : Tile) : Prop :=
  exists h w,
    shape (pixels t) = [h; w] /\ (0 < h * w)%nat
    /\ length (data (pixels t)) = (h * w)%nat
    /\ Forall (representable float64) (data (pixels t)).

(** What the loop of [translate_tiles_2d] appends for tile [t]: a sample
    plane and a mask plane of the block's y/x shape, holding at every pixel
    the tile's contribution and whether the pixel lies inside the tile. *)
Definition warps_to (dt : int_dtype) (y0 x0 : Z) (H Wd : nat) (t : Tile)
    (planes : iarray * barray) : Prop :=
  shape (fst planes) = [H; Wd] /\ shape (snd planes) = [H; Wd]
  /\ dtype (fst planes) = dt
  /\ length (data (fst planes)) = (H * Wd)%nat
  /\ length (data (snd planes)) = (H * Wd)%nat
  /\ forall r c, (r < H)%nat -> (c < Wd)%nat ->
       nth (r * Wd + c) (data (fst planes)) 0 = warped_sample dt y0 x0 t r c
       /\ nth (r * Wd + c) (data (snd planes)) false = inside_tile y0 x0 t r c.

(** A block of 4 x 8 pixels and two 4 x 4 tiles with a gap of two columns
    between them: columns 4 and 5 lie in no tile. *)
Definition tile_far (dt : int_dtype) : Tile :=
  mkTile (4, 4)%nat (mkTilePosition 0 0 0 0 6) (const_image dt 4 4 20).

Definition block_4x8 : block_info :=
  mkBlockInfo [(0, 1); (0, 1); (0, 1); (0, 4); (0, 8)]
              [0; 0; 0; 0; 0]%nat [1; 1; 1; 4; 8]%nat.

Definition tile_map_gap (dt : int_dtype) : gmap (list nat) (list Tile) :=
  {[ [0; 0; 0; 0; 0]%nat := [tile_A dt; tile_far dt] ]}.

(** ** Origin normalisation: what a run keeps *)

(** The two stores hold objects at the same addresses, with the same shape
    and pixels: they differ at most in the positions of the objects. *)
Definition same_up_to_position (h h' : gmap nat Tile) : Prop :=
  forall r,
    match h !! r, h' !! r with
    | Some t, Some t' => tile_shape t' = tile_shape t /\ pixels t' = pixels t
    | None, None => True
    | _, _ => False
    end.

(** A store whose two objects are at (y, x) = (0, 4) and (4, 0): the
    component-wise minimum of their positions is the origin. *)
Definition origin_store : gmap nat Tile :=
  {[ 0%nat := tile_at 0 4; 1%nat := tile_at 4 0 ]}.

(** The end-to-end block in a frame whose origin lies at (y, x) = (-5, -3):
    its rows are 5 to 9 and its columns 3 to 9. *)
Definition block_moved : block_info :=
  mkBlockInfo [(0, 1); (0, 1); (0, 1); (5, 9); (3, 9)]
              [0; 0; 0; 0; 0]%nat [1; 1; 1; 4; 6]%nat.

(** A tile whose pixel array is empty. *)
Definition empty_tile : Tile :=
  mkTile (0, 0)%nat (mkTilePosition 0 0 0 0 0) (const_image uint16 0 0 0).

(** ** Halves of integers as floats *)

(** The float of precision [prec] whose value is [p * 2 ^ e0], for an
    integer [p] of at most [prec] binary digits: the mantissa of
    [normal_form] with the exponent moved by [e0]. *)
Definition scaled_form (prec : Z) (s : bool) (p : positive) (e0 : Z) : spec_float :=
  match normal_form prec s p with
  | S754_finite s' m e => S754_finite s' m (e + e0)
  | v => v
  end.

(** Half of the integer [h] as a float of precision [prec]. *)
Definition half_of (prec : Z) (h : Z) : spec_float :=
  match h with
  | Z0 => fzero
  | Zpos p => scaled_form prec false p (-1)
  | Zneg p => scaled_form prec true p (-1)
  end.

(** Pixel [q] is covered by the masks of the tiles [a] and [b] and by no
    other mask. *)
Definition covered_by_two (tiles : iarray) (masks : barray) (q a b : nat) : Prop :=
  (a < len0 tiles)%nat /\ (b < len0 tiles)%nat /\ a <> b
  /\ mask_at tiles masks a q = true /\ mask_at tiles masks b q = true
  /\ forall i, (i < len0 tiles)%nat -> i <> a -> i <> b -> mask_at tiles masks i q = false.

(** Three 1x1 uint16 tiles; the first and the last cover the pixel and
    hold 10 and 21. *)
Definition overlap_tiles : iarray := NDArray uint16 [3; 1; 1]%nat [10; 0; 21].
Definition overlap_masks : barray := NDArray tt [3; 1; 1]%nat [true; false; true].

(** Three 1x1 uint16 tiles that all hold 7, each with its mask set. *)
Definition three_sevens : iarray := NDArray uint16 [3; 1; 1]%nat [7; 7; 7].
Definition three_sevens_masks : barray := NDArray tt [3; 1; 1]%nat [true; true; true].

(** The end-to-end tiles listed in the opposite order. *)
Definition tile_map_BA (dt : int_dtype) : gmap (list nat) (list Tile) :=
  {[ [0; 0; 0; 0; 0]%nat := [tile_B dt; tile_A dt] ]}.

(** * Properties *)

(** ** Lists built by index *)

Lemma length_tabulate {A} (n : nat) (f : nat -> A) : length (tabulate n f) = n.
Proof. unfold tabulate. now rewrite length_map, length_seq. Qed.

Lemma nth_tabulate {A} (n k : nat) (f : nat -> A) (d : A) :
  (k < n)%nat -> nth k (tabulate n f) d = f k.
Proof.
  intros Hk. unfold tabulate.
  rewrite (nth_indep _ d (f 0%nat)) by (rewrite length_map, length_seq; exact Hk).
  rewrite (map_nth f (seq 0 n) 0%nat k), seq_nth by exact Hk. reflexivity.
Qed.


(** ** Integer casts *)

Lemma bits_pos (dt : int_dtype) : 0 < bits dt.
Proof. destruct dt; reflexivity. Qed.

Lemma modulus_pos (dt : int_dtype) : 0 < 2 ^ bits dt.
Proof. apply Z.pow_pos_nonneg; [lia | pose proof (bits_pos dt); lia]. Qed.

Lemma wrap_mod (dt : int_dtype) (a : Z) :
  wrap dt a mod 2 ^ bits dt = a mod 2 ^ bits dt.
Proof.
  unfold wrap. destruct (signed dt).
  - rewrite Zminus_mod_idemp_l. f_equal. lia.
  - apply Z.mod_mod. pose proof (modulus_pos dt). lia.
Qed.

Lemma wrap_congr (dt : int_dtype) (a b : Z) :
  a mod 2 ^ bits dt = b mod 2 ^ bits dt -> wrap dt a = wrap dt b.
Proof.
  intros H. unfold wrap. destruct (signed dt).
  - f_equal. rewrite (Zplus_mod a), H, <- Zplus_mod. reflexivity.
  - exact H.
Qed.

Lemma wrap_idem (dt : int_dtype) (a : Z) : wrap dt (wrap dt a) = wrap dt a.
Proof. apply wrap_congr, wrap_mod. Qed.

Lemma wrap_in_range (dt : int_dtype) (v : Z) : in_range dt v -> wrap dt v = v.
Proof.
  destruct dt; unfold in_range, wrap; cbn; intros H; rewrite Z.mod_small; lia.
Qed.

Lemma bits_sum_dtype (dt : int_dtype) : bits (sum_dtype dt) = 64.
Proof. unfold sum_dtype. destruct (signed dt); reflexivity. Qed.

Lemma modulus_divides_64 (dt : int_dtype) : (2 ^ bits dt | 2 ^ 64).
Proof.
  exists (2 ^ (64 - bits dt)). rewrite <- Z.pow_add_r.
  - f_equal. lia.
  - destruct dt; cbn; lia.
  - pose proof (bits_pos dt). lia.
Qed.

(** A 64-bit accumulator loses nothing that the final cast keeps. *)
Lemma wrap_accumulator (dt acc : int_dtype) (a : Z) :
  bits acc = 64 -> wrap dt (wrap acc a) = wrap dt a.
Proof.
  intros Hacc. apply wrap_congr.
  rewrite <- (Z.mod_mod_divide (wrap acc a) (2 ^ 64)) by apply modulus_divides_64.
  rewrite <- Hacc, wrap_mod, Hacc.
  apply Z.mod_mod_divide, modulus_divides_64.
Qed.

Lemma nth_map_lt {A B} (f : A -> B) (l : list A) (k : nat) (d : A) (d' : B) :
  (k < length l)%nat -> nth k (map f l) d' = f (nth k l d).
Proof.
  intros Hk. rewrite (nth_indep _ d' (f d)) by (rewrite length_map; exact Hk).
  apply map_nth.
Qed.

(** ** Sum fusion *)

Lemma wrap_fold_sum (dt acc : int_dtype) (f : nat -> Z) (l : list nat) (a : Z) :
  bits acc = 64 ->
  wrap dt (fold_left (fun s i => wrap acc (s + f i)) l a) = wrap dt (a + Zsum (map f l)).
Proof.
  intros Hacc. revert a. induction l as [|i l IH]; intros a; cbn [fold_left map Zsum fold_right].
  - f_equal. lia.
  - rewrite IH. apply wrap_congr.
    rewrite Zplus_mod.
    rewrite <- (Z.mod_mod_divide (wrap acc (a + f i)) (2 ^ 64)) by apply modulus_divides_64.
    rewrite <- Hacc at 1. rewrite wrap_mod, Hacc.
    rewrite Z.mod_mod_divide by apply modulus_divides_64.
    rewrite <- Zplus_mod. f_equal. unfold Zsum. lia.
Qed.

Lemma fuse_sum_pixel (tiles : iarray) (masks : barray) (q : nat) :
  (q < plane tiles)%nat ->
  nth q (data (fuse_sum tiles masks)) 0
  = wrap (dtype tiles) (Zsum (column 0 tiles q)).
Proof.
  intros Hq. unfold fuse_sum, astype_int, np_sum_axis0_int. cbn [data].
  rewrite (nth_map_lt _ _ _ 0) by (rewrite length_tabulate; exact Hq).
  rewrite nth_tabulate by exact Hq.
  rewrite wrap_fold_sum by apply bits_sum_dtype.
  reflexivity.
Qed.

(** C7: sum fusion returns, at every pixel, the sum of the tile samples
    along the tile axis stored back in the input dtype; the masks play no
    part (any two mask arrays give the same result); and when every tile
    holds [v] at a pixel, the result there is [N * v] as stored in the
    dtype. *)
Theorem fuse_sum_is_plain_sum (tiles : iarray) (masks masks' : barray) (q : nat) :
  (q < plane tiles)%nat ->
  fuse_sum tiles masks = fuse_sum tiles masks'
  /\ dtype (fuse_sum tiles masks) = dtype tiles
  /\ shape (fuse_sum tiles masks) = tl (shape tiles)
  /\ nth q (data (fuse_sum tiles masks)) 0
     = wrap (dtype tiles) (Zsum (column 0 tiles q))
  /\ forall v : Z,
       column 0 tiles q = repeat v (len0 tiles) ->
       nth q (data (fuse_sum tiles masks)) 0
       = wrap (dtype tiles) (Z.of_nat (len0 tiles) * v).
Proof.
  intros Hq. repeat split.
  - now apply fuse_sum_pixel.
  - intros v Hconst. rewrite fuse_sum_pixel by exact Hq. rewrite Hconst.
    f_equal. clear. induction (len0 tiles) as [|n IH]; cbn [repeat Zsum fold_right].
    + reflexivity.
    + unfold Zsum in IH. rewrite IH. lia.
Qed.

(** Three uint8 tiles holding 100 at pixel 0: the sum 300 is stored as 44. *)
Lemma fuse_sum_is_plain_sum_witness :
  fuse_sum three_tiles_u8 masks_all_true = fuse_sum three_tiles_u8 masks_all_false
  /\ dtype (fuse_sum three_tiles_u8 masks_all_true) = dtype three_tiles_u8
  /\ shape (fuse_sum three_tiles_u8 masks_all_true) = tl (shape three_tiles_u8)
  /\ nth 0 (data (fuse_sum three_tiles_u8 masks_all_true)) 0
     = wrap (dtype three_tiles_u8) (Zsum (column 0 three_tiles_u8 0))
  /\ forall v : Z,
       column 0 three_tiles_u8 0 = repeat v (len0 three_tiles_u8) ->
       nth 0 (data (fuse_sum three_tiles_u8 masks_all_true)) 0
       = wrap (dtype three_tiles_u8) (Z.of_nat (len0 three_tiles_u8) * v).
Proof.
  apply (fuse_sum_is_plain_sum three_tiles_u8 masks_all_true masks_all_false 0).
  vm_compute. lia.
Defined.

(** ** Linear fusion of a single tile *)

(** C8: with exactly one tile and its all-True mask, linear fusion returns
    the tile's samples unchanged, as a 2-D array of the same dtype.  The
    result mentions neither the distance transform nor the weight buffer:
    the weights are the mask itself. *)
Theorem fuse_linear_single_tile (distance_transform_edt : edt_fn)
    (uninit : nat -> spec_float) (tiles : iarray) (masks : barray) (H W : nat) :
  shape tiles = [1; H; W]%nat ->
  length (data tiles) = (H * W)%nat ->
  Forall (in_range (dtype tiles)) (data tiles) ->
  data masks = repeat true (H * W) ->
  fuse_linear distance_transform_edt uninit tiles masks
  = NDArray (dtype tiles) [H; W]%nat (data tiles).
Proof.
  intros Hshape Hlen Hrange Hmask.
  unfold fuse_linear, len0. rewrite Hshape. cbn [hd Nat.ltb Nat.leb].
  unfold astype_int, np_sum_axis0_int, np_mul_int_bool, plane, len0.
  cbn [dtype shape data]. rewrite Hshape. cbn [hd tl numel fold_right seq fold_left].
  f_equal.
  rewrite Nat.mul_1_r.
  apply nth_ext with (d := 0) (d' := 0).
  - now rewrite length_map, length_tabulate.
  - intros q Hq. rewrite length_map, length_tabulate in Hq.
    rewrite (nth_map_lt _ _ _ 0) by (rewrite length_tabulate; exact Hq).
    rewrite nth_tabulate by exact Hq.
    rewrite Nat.add_0_l, Z.add_0_l, wrap_accumulator by apply bits_sum_dtype.
    rewrite nth_tabulate by (rewrite Hlen; exact Hq).
    rewrite Hmask, (nth_indep _ false true) by (rewrite repeat_length; exact Hq).
    rewrite nth_repeat. cbn [Z.b2z]. rewrite Z.mul_1_r, wrap_idem.
    apply wrap_in_range.
    rewrite Forall_forall in Hrange. apply Hrange, list_elem_of_In, nth_In.
    rewrite Hlen. exact Hq.
Qed.

(** One 2x2 uint16 tile with its all-True mask. *)
Lemma fuse_linear_single_tile_witness :
  fuse_linear edt_reference (fun _ => S754_nan) single_tile_u16 single_mask_true
  = NDArray (dtype single_tile_u16) [2; 2]%nat (data single_tile_u16).
Proof.
  apply (fuse_linear_single_tile edt_reference (fun _ => S754_nan)
           single_tile_u16 single_mask_true 2 2).
  - reflexivity.
  - reflexivity.
  - repeat constructor; vm_compute; congruence.
  - reflexivity.
Defined.

(** ** The block assembler on an empty tile list *)

(** C5: when the tile map holds the empty list for the block's location,
    [assemble_chunk] returns [np.zeros(chunk_shape, dtype)] - an array of
    the requested shape and dtype whose entries are all 0 - and leaves the
    world untouched whatever [warp_func] and [fuse_func] would do to it:
    neither is invoked. *)
Theorem assemble_chunk_empty_block (W : Type) (bi : block_info)
    (tile_map : gmap (list nat) (list Tile))
    (warp_func : warp_func_t W) (fuse_func : fuse_func_t W)
    (dt : int_dtype) (w : W) :
  tile_map !! chunk_location bi = Some [] ->
  assemble_chunk bi tile_map warp_func fuse_func dt w
    = (Ok (np_zeros (chunk_shape bi) dt), w)
  /\ shape (np_zeros (chunk_shape bi) dt) = chunk_shape bi
  /\ dtype (np_zeros (chunk_shape bi) dt) = dt
  /\ length (data (np_zeros (chunk_shape bi) dt)) = numel (chunk_shape bi)
  /\ Forall (fun v => v = 0) (data (np_zeros (chunk_shape bi) dt)).
Proof.
  intros Hempty. unfold assemble_chunk. rewrite Hempty. cbn [length Nat.ltb Nat.leb].
  repeat split.
  - cbn. apply repeat_length.
  - cbn. apply Forall_forall. intros v Hin. apply list_elem_of_In in Hin.
    now apply repeat_spec in Hin.
Qed.

(** A warp and a fuse function that would count their calls and fail: the
    counter stays at 0. *)
Lemma assemble_chunk_empty_block_witness :
  assemble_chunk block_4x6 empty_tile_map counting_warp counting_fuse uint16 0%nat
    = (Ok (np_zeros (chunk_shape block_4x6) uint16), 0%nat)
  /\ shape (np_zeros (chunk_shape block_4x6) uint16) = chunk_shape block_4x6
  /\ dtype (np_zeros (chunk_shape block_4x6) uint16) = uint16
  /\ length (data (np_zeros (chunk_shape block_4x6) uint16)) = numel (chunk_shape block_4x6)
  /\ Forall (fun v => v = 0) (data (np_zeros (chunk_shape block_4x6) uint16)).
Proof.
  apply (assemble_chunk_empty_block nat block_4x6 empty_tile_map
           counting_warp counting_fuse uint16 0%nat).
  reflexivity.
Defined.

(** ** Shapes through the warp engine and the assembler *)








(** ** The end-to-end example *)

(** C1: two 4x4 tiles, A at (y, x) = (0, 0) filled with 10 and B at (0, 2)
    filled with 20, assembled into the 4x6 block at origin (0, 0) by the
    warp engine followed by mean fusion, give 10 in columns 0-1, 15 in
    columns 2-3 and 20 in columns 4-5 of every row.  This holds for every
    integer sample dtype and whatever the uninitialised weight buffer
    contains. *)
Theorem end_to_end_mean_fusion (dt : int_dtype) (uninit : nat -> spec_float) :
  assemble_chunk (W := unit) block_4x6 (tile_map_AB dt)
    (translate_tiles_2d skimage_warp) (pure_fuse (fuse_mean uninit)) dt tt
  = (Ok (expected_block dt), tt).
Proof. destruct dt; vm_compute; reflexivity. Qed.

(** ** Origin normalisation on lists of distinct objects *)

Lemma mbind_ok {W A B} (c : M W A) (k : A -> M W B) (w w' : W) (a : A) :
  c w = (Ok a, w') -> mbind c k w = k a w'.
Proof. intros H. unfold mbind. now rewrite H. Qed.

Lemma deref_ok (h : gmap nat Tile) (r : nat) (t : Tile) :
  h !! r = Some t -> deref r h = (Ok t, h).
Proof. intros H. unfold deref. now rewrite H. Qed.

Lemma read_positions (h : gmap nat Tile) (refs : list nat) (ts : list Tile) :
  points_to h refs ts ->
  list_comprehension refs (fun r => do tile <- deref r; mret (get_position tile)) h
  = (Ok (map get_position ts), h).
Proof.
  induction 1 as [|r t refs ts Hr _ IH]; [reflexivity|].
  cbn [list_comprehension map].
  erewrite mbind_ok; [|erewrite mbind_ok; [reflexivity | apply deref_ok; exact Hr]].
  erewrite mbind_ok; [|exact IH]. reflexivity.
Qed.

Lemma points_to_insert (h : gmap nat Tile) (r : nat) (t : Tile)
    (refs : list nat) (ts : list Tile) :
  r ∉ refs -> points_to h refs ts -> points_to (<[r := t]> h) refs ts.
Proof.
  intros Hnotin. induction 1 as [|r' t' refs ts Hr' _ IH]; constructor.
  - rewrite lookup_insert_ne; [exact Hr'|]. intros ->. apply Hnotin. now left.
  - apply IH. intros Hin. apply Hnotin. now right.
Qed.

Lemma shift_loop (origin : list Z) (refs : list nat) :
  forall (h : gmap nat Tile) (ts : list Tile),
  NoDup refs -> points_to h refs ts ->
  exists h',
    for_each refs (fun r =>
      do tile <- deref r;
      let shifted_pos := zip_with np_sub_int64 (get_position tile) origin in
      set_position r (mkTilePosition (nth 0 shifted_pos 0) (nth 1 shifted_pos 0)
                                     (nth 2 shifted_pos 0) (nth 3 shifted_pos 0)
                                     (nth 4 shifted_pos 0))) h
    = (Ok tt, h')
    /\ points_to h' refs (map (shifted_tile origin) ts)
    /\ forall r, r ∉ refs -> h' !! r = h !! r.
Proof.
  induction refs as [|r refs IH]; intros h ts Hnd Hpt.
  - inversion Hpt; subst. exists h. repeat split. constructor.
  - inversion Hpt as [|? t ? ts' Hr Hrest]; subst.
    apply NoDup_cons in Hnd as [Hnotin Hnd].
    set (h1 := <[r := shifted_tile origin t]> h).
    destruct (IH h1 ts' Hnd (points_to_insert h r _ refs ts' Hnotin Hrest))
      as [h' [Hrun [Hpt' Hframe]]].
    exists h'. split; [|split].
    + cbn [for_each].
      erewrite mbind_ok; [exact Hrun|].
      erewrite mbind_ok; [|apply deref_ok; exact Hr].
      unfold set_position. rewrite Hr. reflexivity.
    + cbn [map]. constructor; [|exact Hpt'].
      rewrite Hframe by exact Hnotin. unfold h1. apply lookup_insert_eq.
    + intros r' Hr'. rewrite Hframe.
      * unfold h1. apply lookup_insert_ne. intros ->. apply Hr'. now left.
      * intros Hin. apply Hr'. now right.
Qed.

Lemma nth_zip_with (f : Z -> Z -> Z) (l l' : list Z) (k : nat) :
  (k < length l)%nat -> (k < length l')%nat ->
  nth k (zip_with f l l') 0 = f (nth k l 0) (nth k l' 0).
Proof.
  revert l' k. induction l as [|a l IH]; intros [|b l'] [|k] Hl Hl';
    cbn in *; try lia; try reflexivity. apply IH; lia.
Qed.

Lemma length_fold_min (n : nat) (rows : list (list Z)) (r : list Z) :
  length r = n -> Forall (fun row => length row = n) rows ->
  length (fold_left (zip_with Z.min) rows r) = n.
Proof.
  intros Hr Hrows. revert r Hr. induction Hrows as [|row rows Hrow _ IH]; intros r Hr.
  - exact Hr.
  - cbn [fold_left]. apply IH. rewrite length_zip_with. lia.
Qed.

Lemma nth_fold_min (n k : nat) (rows : list (list Z)) (r : list Z) :
  (k < n)%nat -> length r = n -> Forall (fun row => length row = n) rows ->
  nth k (fold_left (zip_with Z.min) rows r) 0
  = fold_left Z.min (map (fun row => nth k row 0) rows) (nth k r 0).
Proof.
  intros Hk Hr Hrows. revert r Hr. induction Hrows as [|row rows Hrow _ IH]; intros r Hr.
  - reflexivity.
  - cbn [fold_left map]. rewrite IH by (rewrite length_zip_with; lia).
    rewrite nth_zip_with by lia. reflexivity.
Qed.

Lemma fold_min_shift (o a : Z) (l : list Z) :
  fold_left Z.min (map (fun v => v - o) l) (a - o) = fold_left Z.min l a - o.
Proof.
  revert a. induction l as [|b l IH]; intros a; cbn [fold_left map].
  - reflexivity.
  - rewrite Z.sub_min_distr_r. apply IH.
Qed.

(** After the column minima are subtracted, the column minima are 0. *)
Lemma min_after_shift (n : nat) (rows : list (list Z)) (r0 : list Z) :
  length r0 = n -> Forall (fun row => length row = n) rows ->
  let origin := fold_left (zip_with Z.min) rows r0 in
  fold_left (zip_with Z.min) (map (fun row => zip_with Z.sub row origin) rows)
            (zip_with Z.sub r0 origin)
  = repeat 0 n.
Proof.
  intros Hr0 Hrows origin.
  assert (Horigin : length origin = n) by now apply length_fold_min.
  assert (Hrows' : Forall (fun row => length row = n)
                     (map (fun row => zip_with Z.sub row origin) rows)).
  { apply Forall_map. eapply Forall_impl; [exact Hrows|].
    intros row Hrow. cbn beta in *. rewrite length_zip_with. lia. }
  assert (Hr0' : length (zip_with Z.sub r0 origin) = n)
    by (rewrite length_zip_with; lia).
  apply nth_ext with (d := 0) (d' := 0).
  - rewrite repeat_length. now apply length_fold_min.
  - intros k Hk. rewrite (length_fold_min n) in Hk by assumption.
    rewrite (nth_fold_min n) by assumption.
    rewrite nth_repeat, map_map, nth_zip_with by lia.
    rewrite (map_ext_in _ (fun row => nth k row 0 - nth k origin 0)).
    + rewrite <- (map_map (fun row => nth k row 0) (fun v => v - nth k origin 0)).
      rewrite fold_min_shift. unfold origin.
      rewrite (nth_fold_min n k rows r0) by assumption. lia.
    + intros row Hin. apply nth_zip_with; [|lia].
      rewrite Forall_forall in Hrows. rewrite (Hrows row); [exact Hk|].
      now apply list_elem_of_In.
Qed.

Lemma small_zip_min (l l' : list Z) :
  Forall (fun v => - 2 ^ 62 <= v < 2 ^ 62) l ->
  Forall (fun v => - 2 ^ 62 <= v < 2 ^ 62) l' ->
  Forall (fun v => - 2 ^ 62 <= v < 2 ^ 62) (zip_with Z.min l l').
Proof.
  intros Hl. revert l'. induction Hl as [|a l Ha _ IH]; intros l' Hl'.
  - constructor.
  - destruct Hl' as [|b l' Hb Hl']; cbn [zip_with]; constructor.
    + lia.
    + now apply IH.
Qed.

Lemma small_fold_min (rows : list (list Z)) (r : list Z) :
  Forall (fun v => - 2 ^ 62 <= v < 2 ^ 62) r ->
  Forall (Forall (fun v => - 2 ^ 62 <= v < 2 ^ 62)) rows ->
  Forall (fun v => - 2 ^ 62 <= v < 2 ^ 62) (fold_left (zip_with Z.min) rows r).
Proof.
  intros Hr Hrows. revert r Hr. induction Hrows as [|row rows Hrow _ IH]; intros r Hr.
  - exact Hr.
  - cbn [fold_left]. apply IH. now apply small_zip_min.
Qed.

Lemma sub_int64_small (l o : list Z) :
  Forall (fun v => - 2 ^ 62 <= v < 2 ^ 62) l ->
  Forall (fun v => - 2 ^ 62 <= v < 2 ^ 62) o ->
  zip_with np_sub_int64 l o = zip_with Z.sub l o.
Proof.
  intros Hl. revert o. induction Hl as [|a l Ha _ IH]; intros o Ho.
  - reflexivity.
  - destruct Ho as [|b o Hb Ho]; cbn [zip_with]; [reflexivity|].
    f_equal; [|now apply IH].
    unfold np_sub_int64. apply wrap_in_range. unfold in_range. cbn. lia.
Qed.

Lemma get_position_shifted (origin : list Z) (t : Tile) :
  length origin = 5%nat ->
  get_position (shifted_tile origin t)
  = zip_with np_sub_int64 (get_position t) origin.
Proof.
  intros Hlen.
  destruct origin as [|o0 [|o1 [|o2 [|o3 [|o4 [|]]]]]]; try discriminate Hlen.
  reflexivity.
Qed.

(** On a non-empty list of pairwise distinct tile objects with coordinates
    far inside the int64 range, [shift_to_origin] returns the references in
    their order; every object it points to keeps its shape and pixels and
    has the component-wise minimum [origin] subtracted from its position;
    the component-wise minimum of the new positions is (0, 0, 0, 0, 0);
    differences of positions are those of before; other objects of the
    store are untouched. *)
Lemma shift_to_origin_distinct_objects (h : gmap nat Tile) (refs : list nat)
    (ts : list Tile) :
  refs <> [] -> NoDup refs -> points_to h refs ts -> Forall small_position ts ->
  exists h' origin,
    shift_to_origin refs h = (Ok refs, h')
    /\ np_min_axis0 (map get_position ts) = Ok origin
    /\ points_to h' refs (map (shifted_tile origin) ts)
    /\ (forall r, r ∉ refs -> h' !! r = h !! r)
    /\ Forall (fun t => tile_shape (shifted_tile origin t) = tile_shape t
                        /\ pixels (shifted_tile origin t) = pixels t
                        /\ get_position (shifted_tile origin t)
                           = zip_with Z.sub (get_position t) origin) ts
    /\ np_min_axis0 (map get_position (map (shifted_tile origin) ts))
       = Ok [0; 0; 0; 0; 0]
    /\ (forall t1 t2 k, t1 ∈ ts -> t2 ∈ ts -> (k < 5)%nat ->
          nth k (get_position (shifted_tile origin t1)) 0
          - nth k (get_position (shifted_tile origin t2)) 0
          = nth k (get_position t1) 0 - nth k (get_position t2) 0).
Proof.
  intros Hne Hnd Hpt Hsmall.
  destruct ts as [|t0 ts]; [inversion Hpt; subst; congruence|].
  set (origin := fold_left (zip_with Z.min) (map get_position ts) (get_position t0)).
  assert (Hrows : Forall (fun row => length row = 5%nat) (map get_position ts))
    by (apply Forall_map, Forall_forall; reflexivity).
  assert (Hlen : length origin = 5%nat) by now apply length_fold_min.
  assert (Horigin : Forall (fun v => - 2 ^ 62 <= v < 2 ^ 62) origin).
  { apply small_fold_min.
    - now inversion Hsmall.
    - apply Forall_map. now inversion Hsmall. }
  assert (Hpos : forall t, t ∈ t0 :: ts ->
            get_position (shifted_tile origin t) = zip_with Z.sub (get_position t) origin).
  { intros t Ht. rewrite get_position_shifted by exact Hlen.
    apply sub_int64_small; [|exact Horigin].
    rewrite Forall_forall in Hsmall. now apply Hsmall. }
  destruct (shift_loop origin refs h (t0 :: ts) Hnd Hpt) as [h' [Hrun [Hpt' Hframe]]].
  exists h', origin. split; [|split; [|split; [|split; [|split; [|split]]]]].
  - unfold shift_to_origin.
    erewrite mbind_ok; [|apply read_positions; exact Hpt].
    cbn [map np_min_axis0]. fold origin.
    erewrite mbind_ok; [|reflexivity].
    unfold copy. erewrite mbind_ok; [|exact Hrun]. reflexivity.
  - reflexivity.
  - exact Hpt'.
  - exact Hframe.
  - apply Forall_forall. intros t Ht. repeat split. now apply Hpos.
  - cbn [map np_min_axis0]. f_equal.
    rewrite map_map.
    rewrite (map_ext_in _ (fun t => zip_with Z.sub (get_position t) origin)).
    + rewrite Hpos by now left.
      rewrite <- (map_map get_position (fun row => zip_with Z.sub row origin)).
      apply (min_after_shift 5 (map get_position ts) (get_position t0)); auto.
    + intros t Ht. apply Hpos. right. now apply list_elem_of_In.
  - intros t1 t2 k Ht1 Ht2 Hk. rewrite !Hpos by assumption.
    rewrite !nth_zip_with by (rewrite ?Hlen; cbn; lia). lia.
Qed.

(** Two distinct objects at (5, 7) and (9, 3) move to (0, 4) and (4, 0). *)
Example shift_to_origin_two_distinct :
  exists h' origin,
    shift_to_origin [0; 1]%nat two_tile_store = (Ok [0; 1]%nat, h')
    /\ origin = [0; 0; 0; 5; 3]
    /\ positions_of h' [0; 1]%nat = [Some [0; 0; 0; 0; 4]; Some [0; 0; 0; 4; 0]].
Proof.
  destruct (shift_to_origin_distinct_objects two_tile_store [0; 1]%nat
              [tile_at 5 7; tile_at 9 3])
    as [h' [origin [Hrun [Hmin [Hpt _]]]]].
  - discriminate.
  - compute_done.
  - repeat constructor.
  - repeat constructor; vm_compute; congruence.
  - exists h', origin. split; [exact Hrun|].
    assert (Ho : origin = [0; 0; 0; 5; 3]) by (vm_compute in Hmin; congruence).
    subst origin. split; [reflexivity|].
    unfold positions_of. inversion Hpt as [|? ? ? ? H0 Hpt1]; subst.
    inversion Hpt1 as [|? ? ? ? H1 _]; subst. cbn [map]. rewrite H0, H1. reflexivity.
Qed.

(** ** Origin normalisation on shared tile objects *)

(** C2: on a list that holds the same tile object twice, the minimum is
    subtracted from that object twice.  With objects at (y, x) = (5, 7)
    and (9, 3) and the list [t0, t0, t1], the returned list points to
    tiles at (-5, 1), (-5, 1), (4, 0): the component-wise minimum is
    (0, 0, 0, -5, 0), not the origin, and the offset from [t0] to [t1],
    (4, -4) before the call, is (9, -1) after it. *)
Theorem shift_to_origin_aliased_list :
  fst (shift_to_origin [0; 0; 1]%nat two_tile_store) = Ok [0; 0; 1]%nat
  /\ positions_of two_tile_store [0; 0; 1]%nat
     = [Some [0; 0; 0; 5; 7]; Some [0; 0; 0; 5; 7]; Some [0; 0; 0; 9; 3]]
  /\ positions_of (snd (shift_to_origin [0; 0; 1]%nat two_tile_store)) [0; 0; 1]%nat
     = [Some [0; 0; 0; -5; 1]; Some [0; 0; 0; -5; 1]; Some [0; 0; 0; 4; 0]]
  /\ np_min_axis0 [[0; 0; 0; -5; 1]; [0; 0; 0; -5; 1]; [0; 0; 0; 4; 0]]
     = Ok [0; 0; 0; -5; 0].
Proof. vm_compute. repeat split; reflexivity. Qed.

(** C3: the returned list is a copy of the list of references, so the
    objects it points to are the caller's own: after the call the tile
    that the input list points to carries the shifted position. *)
Theorem shift_to_origin_mutates_input :
  positions_of one_tile_store [0%nat] = [Some [0; 0; 0; 5; 7]]
  /\ fst (shift_to_origin [0%nat] one_tile_store) = Ok [0%nat]
  /\ positions_of (snd (shift_to_origin [0%nat] one_tile_store)) [0%nat]
     = [Some [0; 0; 0; 0; 0]].
Proof. vm_compute. repeat split; reflexivity. Qed.

(** ** Special values in the resampled mask channel *)


(** ** Integers that a float holds exactly *)

Lemma digits2_shift (p n : positive) :
  digits2_pos (Pos.iter xO p n) = (digits2_pos p + n)%positive.
Proof.
  induction n as [|n IH] using Pos.peano_ind.
  - cbn. now rewrite Pos.add_1_r.
  - rewrite Pos.iter_succ. cbn [digits2_pos]. rewrite IH. now rewrite Pos.add_succ_r.
Qed.

Lemma Zpos_shift (p n : positive) :
  Zpos (Pos.iter xO p n) = Zpos p * 2 ^ Zpos n.
Proof.
  induction n as [|n IH] using Pos.peano_ind.
  - cbn. lia.
  - rewrite Pos.iter_succ, Pos2Z.inj_succ, Z.pow_succ_r by lia.
    rewrite Pos2Z.inj_xO, IH. lia.
Qed.

Lemma digits2_bounds (p : positive) :
  2 ^ (Zpos (digits2_pos p) - 1) <= Zpos p < 2 ^ Zpos (digits2_pos p).
Proof.
  induction p as [p IH|p IH|]; cbn [digits2_pos].
  - rewrite Pos2Z.inj_succ, Z.pow_succ_r by lia.
    replace (Z.succ (Zpos (digits2_pos p)) - 1) with (Z.succ (Zpos (digits2_pos p) - 1)) by lia.
    rewrite Z.pow_succ_r by lia. lia.
  - rewrite Pos2Z.inj_succ, Z.pow_succ_r by lia.
    replace (Z.succ (Zpos (digits2_pos p)) - 1) with (Z.succ (Zpos (digits2_pos p) - 1)) by lia.
    rewrite Z.pow_succ_r by lia. lia.
  - cbn. lia.
Qed.

Lemma representable_digits (prec : Z) (p : positive) :
  0 < prec -> Zpos p < 2 ^ prec -> Zpos (digits2_pos p) <= prec.
Proof.
  intros Hprec Hlt. pose proof (digits2_bounds p) as [Hlo _].
  destruct (Z.le_gt_cases (Zpos (digits2_pos p)) prec) as [|Hgt]; [assumption|].
  exfalso. assert (2 ^ prec <= 2 ^ (Zpos (digits2_pos p) - 1)).
  { apply Z.pow_le_mono_r; lia. }
  lia.
Qed.

Lemma iter_pos_shift {A} (f : A -> A) (n : positive) (a : A) :
  SpecFloat.iter_pos f n a = Pos.iter f a n.
Proof.
  revert a. induction n as [n IH|n IH|]; intros a; cbn [SpecFloat.iter_pos Pos.iter].
  - rewrite !IH. now rewrite <- !Pos.iter_swap.
  - now rewrite !IH.
  - reflexivity.
Qed.

(** Shifting right the bits that a left shift put in gives back the
    mantissa, and nothing is lost. *)
Lemma shr_shifted (q n : positive) :
  SpecFloat.iter_pos shr_1 n (Build_shr_record (Zpos (Pos.iter xO q n)) false false)
  = Build_shr_record (Zpos q) false false.
Proof.
  rewrite iter_pos_shift. induction n as [|n IH] using Pos.peano_ind.
  - reflexivity.
  - rewrite !Pos.iter_succ. rewrite <- Pos.iter_swap. cbn [shr_1 orb]. exact IH.
Qed.

Lemma mul_shifted_one (a n : positive) :
  (a * Pos.iter xO 1 n)%positive = Pos.iter xO a n.
Proof.
  induction n as [|n IH] using Pos.peano_ind.
  - cbn. lia.
  - rewrite !Pos.iter_succ, Pos.mul_xO_r, IH. reflexivity.
Qed.

Lemma binary_round_aux_fixed (prec emax : Z) (s : bool) (m : positive) (e : Z) :
  fexp prec emax (Zpos (digits2_pos m) + e) = e -> e <= emax - prec ->
  binary_round_aux prec emax s (Zpos m) e loc_Exact = S754_finite s m e.
Proof.
  intros Hfix He. unfold binary_round_aux, shr_fexp, Zdigits2.
  rewrite Hfix, Z.sub_diag.
  cbn [shr shr_record_of_loc round_nearest_even shr_m loc_of_shr_record Zdigits2].
  rewrite Hfix, Z.sub_diag. cbn [shr shr_record_of_loc shr_m].
  destruct (Z.leb_spec e (emax - prec)); [reflexivity | lia].
Qed.

(** A value that needs no rounding in the target format converts to a
    finite float. *)
Lemma binary_round_finite (prec emax : Z) (s : bool) (m : positive) (e : Z) :
  fexp prec emax (Zpos (digits2_pos m) + e) <= e ->
  fexp prec emax (Zpos (digits2_pos m) + e) <= emax - prec ->
  finite_or_zero (binary_round prec emax s m e) = true.
Proof.
  intros Hle Hmax. unfold binary_round, shl_align.
  destruct (fexp prec emax (Zpos (digits2_pos m) + e) - e) as [|k|k] eqn:E; try lia.
  - rewrite binary_round_aux_fixed; [reflexivity | lia | lia].
  - rewrite binary_round_aux_fixed; [reflexivity | | exact Hmax].
    rewrite digits2_shift, Pos2Z.inj_add.
    replace (Zpos (digits2_pos m) + Zpos k + fexp prec emax (Zpos (digits2_pos m) + e))
      with (Zpos (digits2_pos m) + e) by lia.
    reflexivity.
Qed.

Section FloatExact.
Variables prec emax : Z.
Hypothesis Hprec : 1 < prec.
Hypothesis Hemax : prec < emax.

Lemma fexp_small (d : Z) : 0 < d -> d <= prec + prec -> fexp prec emax d = d - prec.
Proof. intros H1 H2. unfold fexp, emin. lia. Qed.

Lemma normal_form_digits (s : bool) (p : positive) :
  Zpos (digits2_pos p) <= prec ->
  exists m e, normal_form prec s p = S754_finite s m e
              /\ Zpos (digits2_pos m) = prec /\ 1 - prec <= e <= 0
              /\ Zpos m = Zpos p * 2 ^ (- e).
Proof.
  intros Hd. unfold normal_form.
  destruct (Zpos (digits2_pos p) - prec) as [|k|k] eqn:E; try lia.
  - exists p, 0. repeat split; try lia.
  - exists (Pos.iter xO p k), (Zneg k). rewrite digits2_shift, Pos2Z.inj_add.
    repeat split; try lia. rewrite Zpos_shift. reflexivity.
Qed.

Lemma binary_round_aux_canonical (s : bool) (m : positive) (e : Z) :
  Zpos (digits2_pos m) = prec -> 1 - prec <= e <= 0 ->
  binary_round_aux prec emax s (Zpos m) e loc_Exact = S754_finite s m e.
Proof.
  intros Hm He. apply binary_round_aux_fixed; [|lia].
  rewrite Hm, fexp_small by lia. lia.
Qed.

Lemma binary_round_exact (s : bool) (p : positive) :
  Zpos (digits2_pos p) <= prec ->
  binary_round prec emax s p 0 = normal_form prec s p.
Proof.
  intros Hd. unfold binary_round, shl_align, normal_form.
  rewrite Z.add_0_r, fexp_small, Z.sub_0_r by lia.
  destruct (Zpos (digits2_pos p) - prec) as [|k|k] eqn:E; try lia.
  - apply binary_round_aux_canonical; lia.
  - apply binary_round_aux_canonical; [|lia].
    rewrite digits2_shift, Pos2Z.inj_add. lia.
Qed.

Lemma Ftrunc_normal_form (s : bool) (p : positive) :
  Zpos (digits2_pos p) <= prec ->
  Ftrunc (normal_form prec s p) = cond_Zopp s (Zpos p).
Proof.
  intros Hd. unfold normal_form.
  destruct (Zpos (digits2_pos p) - prec) as [|k|k] eqn:E; try lia; cbn [Ftrunc].
  - reflexivity.
  - rewrite Zpos_shift, Z.div_mul; [reflexivity|].
    apply Z.pow_nonzero; lia.
Qed.

Lemma SFmul_canonical_one (s : bool) (m : positive) (e : Z) :
  Zpos (digits2_pos m) = prec -> 1 - prec <= e <= 0 ->
  SFmul prec emax (S754_finite s m e) (normal_form prec false 1) = S754_finite s m e.
Proof.
  intros Hm He. unfold normal_form. cbn [digits2_pos].
  destruct (1 - prec) as [|k|k] eqn:E; try lia.
  cbn [SFmul]. rewrite mul_shifted_one, xorb_false_r.
  unfold binary_round_aux, shr_fexp, Zdigits2.
  rewrite digits2_shift, Pos2Z.inj_add, Hm.
  replace (prec + Zpos k + (e + Zneg k)) with (prec + e) by lia.
  rewrite fexp_small by lia.
  replace (prec + e - prec - (e + Zneg k)) with (Zpos k) by lia.
  cbn [shr shr_record_of_loc]. rewrite shr_shifted.
  cbn [round_nearest_even shr_m loc_of_shr_record Zdigits2].
  replace (e + Zneg k + Zpos k) with e by lia.
  rewrite Hm, fexp_small by lia.
  replace (prec + e - prec - e) with 0 by lia.
  cbn [shr shr_record_of_loc shr_m].
  destruct (Z.leb_spec e (emax - prec)); [reflexivity | lia].
Qed.
End FloatExact.

Lemma fprec_gt_1 (fd : float_dtype) : 1 < fprec fd.
Proof. destruct fd; reflexivity. Qed.

Lemma fprec_lt_femax (fd : float_dtype) : fprec fd < femax fd.
Proof. destruct fd; reflexivity. Qed.

Lemma fone_normal_form (fd : float_dtype) : fone fd = normal_form (fprec fd) false 1.
Proof. destruct fd; reflexivity. Qed.

Lemma Z2F_normal_form (fd : float_dtype) (s : bool) (p : positive) :
  Zpos p < 2 ^ fprec fd ->
  Z2F fd (cond_Zopp s (Zpos p)) = normal_form (fprec fd) s p.
Proof.
  intros Hp. pose proof (fprec_gt_1 fd). pose proof (fprec_lt_femax fd).
  assert (Zpos (digits2_pos p) <= fprec fd) by (apply representable_digits; lia).
  unfold Z2F. destruct s; cbn [cond_Zopp Z.opp binary_normalize];
    now apply binary_round_exact.
Qed.

Lemma Z_sign_cases (v : Z) :
  v = 0 \/ exists s p, v = cond_Zopp s (Zpos p) /\ Z.abs v = Zpos p.
Proof.
  destruct v as [|p|p]; [now left | right; exists false, p | right; exists true, p];
    split; reflexivity.
Qed.

Lemma Ftrunc_Z2F (fd : float_dtype) (v : Z) :
  representable fd v -> Ftrunc (Z2F fd v) = v.
Proof.
  unfold representable. intros Hv.
  destruct (Z_sign_cases v) as [->|[s [p [-> Habs]]]]; [reflexivity|].
  rewrite Habs in Hv. rewrite Z2F_normal_form by exact Hv.
  apply Ftrunc_normal_form. apply representable_digits; [|exact Hv].
  pose proof (fprec_gt_1 fd). lia.
Qed.

Lemma Z2F_finite_or_zero (fd : float_dtype) (v : Z) :
  representable fd v -> finite_or_zero (Z2F fd v) = true.
Proof.
  unfold representable. intros Hv. pose proof (fprec_gt_1 fd).
  destruct (Z_sign_cases v) as [->|[s [p [-> Habs]]]]; [reflexivity|].
  rewrite Habs in Hv. rewrite Z2F_normal_form by exact Hv.
  destruct (normal_form_digits (fprec fd) (fprec_gt_1 fd) s p) as [m [e [-> _]]]; [|reflexivity].
  apply representable_digits; [lia | exact Hv].
Qed.

Lemma Z2F_mul_one (fd : float_dtype) (v : Z) :
  representable fd v -> fmul fd (Z2F fd v) (fone fd) = Z2F fd v.
Proof.
  unfold representable. intros Hv.
  pose proof (fprec_gt_1 fd). pose proof (fprec_lt_femax fd).
  destruct (Z_sign_cases v) as [->|[s [p [-> Habs]]]].
  - destruct fd; reflexivity.
  - rewrite Habs in Hv. rewrite Z2F_normal_form by exact Hv.
    destruct (normal_form_digits (fprec fd) (fprec_gt_1 fd) s p) as [m [e [-> [Hm [He _]]]]].
    + apply representable_digits; [lia | exact Hv].
    + rewrite fone_normal_form. unfold fmul.
      apply SFmul_canonical_one; assumption.
Qed.

Lemma fmul_zero_r (fd : float_dtype) (a z : spec_float) :
  finite_or_zero a = true -> is_zero z = true -> is_zero (fmul fd a z) = true.
Proof. destruct a, z; cbn; congruence. Qed.

Lemma same_value_Ftrunc (acc v : spec_float) :
  same_value acc v -> Ftrunc acc = Ftrunc v.
Proof.
  intros [->|[Ha Hv]]; [reflexivity|]. destruct acc, v; cbn in *; congruence.
Qed.

Lemma fadd_zero_zero (fd : float_dtype) (a z : spec_float) :
  is_zero a = true -> is_zero z = true -> is_zero (fadd fd a z) = true.
Proof. destruct a as [[]| | |], z as [[]| | |]; cbn; congruence. Qed.

Lemma fadd_zero_l (fd : float_dtype) (a v : spec_float) :
  is_zero a = true -> finite_or_zero v = true -> same_value (fadd fd a v) v.
Proof.
  destruct a as [sa| | |], v as [sv| | |]; cbn; try congruence; intros _ _.
  - right. split; [destruct sa, sv|]; reflexivity.
  - left. reflexivity.
Qed.

Lemma fadd_zero_r (fd : float_dtype) (acc z v : spec_float) :
  same_value acc v -> finite_or_zero v = true -> is_zero z = true ->
  same_value (fadd fd acc z) v.
Proof.
  intros [->|[Ha Hv]] Hfin Hz.
  - destruct v as [sv| | |], z as [sz| | |]; cbn in *; try congruence.
    + right. split; [destruct sv, sz|]; reflexivity.
    + left. reflexivity.
  - right. split; [|exact Hv]. now apply fadd_zero_zero.
Qed.

(** ** Folding a column in which one entry counts *)

Lemma seq_split_at (c n : nat) :
  (c < n)%nat -> seq 0 n = seq 0 c ++ c :: seq (S c) (n - S c).
Proof.
  intros Hc. replace n with (c + S (n - S c))%nat at 1 by lia.
  rewrite seq_app. reflexivity.
Qed.

Lemma fold_left_preserves {A} (step : A -> nat -> A) (I : A -> Prop)
    (l : list nat) (a : A) :
  (forall acc i, In i l -> I acc -> I (step acc i)) ->
  I a -> I (fold_left step l a).
Proof.
  revert a. induction l as [|i l IH]; intros a Hstep Ha; cbn [fold_left].
  - exact Ha.
  - apply IH.
    + intros acc j Hj. apply Hstep. now right.
    + apply Hstep; [now left | exact Ha].
Qed.

Lemma fold_left_one_hot {A} (step : A -> nat -> A) (I0 I1 : A -> Prop)
    (n c : nat) (a : A) :
  (c < n)%nat -> I0 a ->
  (forall acc i, (i < n)%nat -> i <> c -> I0 acc -> I0 (step acc i)) ->
  (forall acc, I0 acc -> I1 (step acc c)) ->
  (forall acc i, (i < n)%nat -> i <> c -> I1 acc -> I1 (step acc i)) ->
  I1 (fold_left step (seq 0 n) a).
Proof.
  intros Hc Ha H0 Hat H1. rewrite (seq_split_at c n Hc), fold_left_app.
  cbn [fold_left]. apply fold_left_preserves.
  - intros acc i Hi. apply in_seq in Hi. apply H1; lia.
  - apply Hat. apply fold_left_preserves; [|exact Ha].
    intros acc i Hi. apply in_seq in Hi. apply H0; lia.
Qed.

(** ** Pixels covered by exactly one tile *)

Lemma stack_index (n p i q : nat) :
  (i < n)%nat -> (q < p)%nat -> (i * p + q < n * p)%nat /\ ((i * p + q) mod p = q)%nat.
Proof.
  intros Hi Hq. split; [nia|].
  rewrite Nat.add_comm, Nat.Div0.mod_add. now apply Nat.mod_small.
Qed.

Lemma fold_left_ext_in {A} (f g : A -> nat -> A) (l : list nat) (a : A) :
  (forall i acc, In i l -> f acc i = g acc i) ->
  fold_left f l a = fold_left g l a.
Proof.
  revert a. induction l as [|i l IH]; intros a Hfg; cbn [fold_left].
  - reflexivity.
  - rewrite Hfg by now left. apply IH. intros j acc Hj. apply Hfg. now right.
Qed.


Lemma stack_index_div (p i q : nat) :
  (q < p)%nat -> ((i * p + q) / p = i)%nat.
Proof.
  intros Hq. rewrite Nat.add_comm, Nat.div_add by lia.
  rewrite Nat.div_small by exact Hq. reflexivity.
Qed.

Section OneCover.
Variables (tiles : iarray) (masks : barray) (q c : nat).

Local Abbreviation N := (len0 tiles).
Local Abbreviation P := (plane tiles).
Local Abbreviation sample i := (sample_at tiles i q).
Local Abbreviation covered i := (mask_at tiles masks i q).

Hypothesis Hshape : shape masks = shape tiles.
Hypothesis Htiles : length (data tiles) = (N * P)%nat.
Hypothesis Hmasks : length (data masks) = (N * P)%nat.
Hypothesis Hq : (q < P)%nat.
Hypothesis Hc : (c < N)%nat.
Hypothesis Hcover : covered c = true.
Hypothesis Hothers : forall i, (i < N)%nat -> i <> c -> covered i = false.
Hypothesis Hrange : in_range (dtype tiles) (sample c).

Lemma plane_masks : plane masks = P.
Proof. unfold plane. now rewrite Hshape. Qed.

Lemma len0_masks : len0 masks = N.
Proof. unfold len0. now rewrite Hshape. Qed.

Lemma mask_count_one :
  nth q (data (np_sum_axis0_bool masks)) 0 = 1.
Proof.
  unfold np_sum_axis0_bool. cbn [data]. rewrite plane_masks, len0_masks.
  rewrite nth_tabulate by exact Hq.
  apply (fold_left_one_hot _ (fun acc => acc = 0) (fun acc => acc = 1) N c); auto.
  - intros acc i Hi Hne ->. fold (covered i). now rewrite Hothers.
  - intros acc ->. fold (covered c). now rewrite Hcover.
  - intros acc i Hi Hne ->. fold (covered i). now rewrite Hothers.
Qed.

Lemma weighted_column_sum (rd : float_dtype) (weight : nat -> spec_float) :
  weight c = fone rd ->
  (forall i, (i < N)%nat -> i <> c -> is_zero (weight i) = true) ->
  (forall i, (i < N)%nat -> representable rd (sample i)) ->
  F2I (dtype tiles)
    (fold_left (fun acc i => fadd rd acc (fmul rd (Z2F rd (sample i)) (weight i)))
               (seq 0 N) fzero)
  = sample c.
Proof.
  intros Hwc Hwo Hrep. unfold F2I.
  rewrite (same_value_Ftrunc _ (Z2F rd (sample c))).
  - rewrite Ftrunc_Z2F by (apply Hrep; exact Hc). now apply wrap_in_range.
  - apply (fold_left_one_hot _ (fun acc => is_zero acc = true)
             (fun acc => same_value acc (Z2F rd (sample c))) N c); auto.
    + intros acc i Hi Hne Hacc. apply fadd_zero_zero; [exact Hacc|].
      apply fmul_zero_r; [apply Z2F_finite_or_zero; auto | auto].
    + intros acc Hacc. rewrite Hwc, Z2F_mul_one by auto.
      apply fadd_zero_l; [exact Hacc | apply Z2F_finite_or_zero; auto].
    + intros acc i Hi Hne Hacc. apply fadd_zero_r; [exact Hacc | |].
      * apply Z2F_finite_or_zero; auto.
      * apply fmul_zero_r; [apply Z2F_finite_or_zero; auto | auto].
Qed.

Lemma fuse_mean_one_cover (uninit : nat -> spec_float) :
  (forall i, (i < N)%nat -> representable float64 (sample i)) ->
  nth q (data (fuse_mean uninit tiles masks)) 0 = sample c.
Proof.
  intros Hrep. unfold fuse_mean, astype_F2I. cbn [data].
  set (weights := sanitize float64 _).
  set (prod := np_mul_int_float tiles weights).
  unfold np_sum_axis0_float. cbn [data].
  change (plane prod) with P. change (len0 prod) with N.
  change (dtype prod) with float64.
  rewrite (nth_map_lt _ _ _ fzero) by (rewrite length_tabulate; exact Hq).
  rewrite nth_tabulate by exact Hq.
  rewrite (fold_left_ext_in _
             (fun acc i => fadd float64 acc
                (fmul float64 (Z2F float64 (sample i))
                   (if covered i then fone float64 else fzero)))).
  - apply (weighted_column_sum float64
             (fun i => if covered i then fone float64 else fzero)).
    + now rewrite Hcover.
    + intros i Hi Hne. now rewrite Hothers.
    + exact Hrep.
  - intros i acc Hi. apply in_seq in Hi.
    destruct (stack_index N P i q) as [Hk Hmod]; [lia | exact Hq |].
    f_equal. subst prod. unfold np_mul_int_float. cbn [data dtype].
    rewrite nth_tabulate by (rewrite Htiles; exact Hk).
    change (result_type (dtype tiles) (dtype weights)) with float64.
    fold (sample i). f_equal.
    subst weights. unfold sanitize, true_divide_where. cbn [data dtype].
    rewrite (nth_map_lt _ _ _ fzero) by (rewrite length_tabulate, Hmasks; exact Hk).
    rewrite nth_tabulate by (rewrite Hmasks; exact Hk).
    change (numel (tl (shape masks))) with (plane masks).
    rewrite plane_masks, Hmod, mask_count_one. fold (covered i).
    destruct (covered i); reflexivity.
Qed.

Variable distance_transform_edt : edt_fn.

Local Abbreviation distance i := (edt_at distance_transform_edt masks i q).

Hypothesis Hmany : (1 < N)%nat.
Hypothesis Hbackground :
  forall i, (i < N)%nat -> covered i = false -> is_zero (distance i) = true.
Hypothesis Hforeground :
  forall i, (i < N)%nat -> covered i = true ->
  exists m e, F2F float32 (distance i) = S754_finite false m e.

End OneCover.

Lemma exact_in_product_representable (dt : int_dtype) (v : Z) :
  exact_in_product dt v ->
  representable (result_type dt float32) v /\ representable float64 v.
Proof.
  unfold exact_in_product, representable, in_range, result_type.
  destruct dt; cbn; intros [Hr H64]; split; lia.
Qed.




(** ** Weights read from an uninitialised buffer *)

(** A float32 or float64 value converts to a finite float of the same or
    of the wider type. *)
Lemma F2F_finite_or_zero (fd rd : float_dtype) (v : spec_float) :
  fd = rd \/ (fd = float32 /\ rd = float64) ->
  is_valid fd v = true -> finite_or_zero v = true ->
  finite_or_zero (F2F rd v) = true.
Proof.
  intros Hwide Hvalid Hfin. destruct v as [| | |s m e]; try exact Hfin.
  unfold is_valid in Hvalid. cbn [F2F valid_binary] in *.
  unfold bounded, canonical_mantissa in Hvalid.
  apply andb_prop in Hvalid as [Hcanon Hbound].
  apply Z.eqb_eq in Hcanon. apply Z.leb_le in Hbound.
  assert (Hle : fexp (fprec rd) (femax rd) (Zpos (digits2_pos m) + e) <= e).
  { revert Hcanon. unfold fexp, emin.
    destruct Hwide as [->|[-> ->]]; [lia|]. cbn [fprec femax]. lia. }
  assert (Hmax : fexp (fprec rd) (femax rd) (Zpos (digits2_pos m) + e)
                 <= femax rd - fprec rd).
  { etransitivity; [exact Hle|].
    destruct Hwide as [->|[-> ->]]; [lia|]. cbn [fprec femax] in *. lia. }
  destruct s; cbn [cond_Zopp Z.opp binary_normalize]; now apply binary_round_finite.
Qed.

Lemma sanitize_valid (fd : float_dtype) (v : spec_float) :
  is_valid fd v = true ->
  is_valid fd (clip01 fd (nan_to_num fd v)) = true
  /\ finite_or_zero (clip01 fd (nan_to_num fd v)) = true.
Proof.
  intros Hvalid. unfold clip01, np_maximum, np_minimum.
  assert (Hn : is_valid fd (nan_to_num fd v) = true
               /\ finite_or_zero (nan_to_num fd v) = true).
  { destruct v as [|[]| |]; cbn [nan_to_num]; (split; [|try reflexivity]);
      try exact Hvalid; destruct fd; reflexivity. }
  destruct Hn as [Hv Hf]. set (x := nan_to_num fd v) in *.
  assert (H0 : is_valid fd (Z2F fd 0) = true /\ finite_or_zero (Z2F fd 0) = true)
    by (destruct fd; split; reflexivity).
  assert (H1 : is_valid fd (Z2F fd 1) = true /\ finite_or_zero (Z2F fd 1) = true)
    by (destruct fd; split; reflexivity).
  destruct (SFltb (Z2F fd 0) x || is_nan x);
    match goal with |- context [if ?b then _ else _] => destruct b end; tauto.
Qed.

Lemma wrap_zero (dt : int_dtype) : wrap dt 0 = 0.
Proof. destruct dt; reflexivity. Qed.

Lemma zero_column_sum (rd : float_dtype) (dt : int_dtype) (term : nat -> spec_float)
    (n : nat) :
  (forall i, (i < n)%nat -> is_zero (term i) = true) ->
  F2I dt (fold_left (fun acc i => fadd rd acc (term i)) (seq 0 n) fzero) = 0.
Proof.
  intros Hterm. unfold F2I.
  assert (Hz : is_zero (fold_left (fun acc i => fadd rd acc (term i)) (seq 0 n) fzero)
               = true).
  { apply (fold_left_preserves _ (fun acc => is_zero acc = true)); [|reflexivity].
    intros acc i Hi Hacc. apply in_seq in Hi. apply fadd_zero_zero; [exact Hacc|].
    apply Hterm. lia. }
  destruct (fold_left _ _ _); try discriminate Hz. apply wrap_zero.
Qed.

Lemma fmul_zero_l (rd : float_dtype) (w : spec_float) :
  finite_or_zero w = true -> is_zero (fmul rd (Z2F rd 0) w) = true.
Proof. destruct w; cbn; congruence. Qed.

Section NoCover.
Variables (tiles : iarray) (masks : barray) (q : nat).

Local Abbreviation N := (len0 tiles).
Local Abbreviation P := (plane tiles).

Hypothesis Hshape : shape masks = shape tiles.
Hypothesis Htiles : length (data tiles) = (N * P)%nat.
Hypothesis Hmasks : length (data masks) = (N * P)%nat.
Hypothesis Hq : (q < P)%nat.
Hypothesis Hnone : forall i, (i < N)%nat -> mask_at tiles masks i q = false.
Hypothesis Hzero : forall i, (i < N)%nat -> sample_at tiles i q = 0.

Lemma mask_count_zero :
  nth q (data (np_sum_axis0_bool masks)) 0 = 0.
Proof.
  unfold np_sum_axis0_bool. cbn [data].
  rewrite (plane_masks tiles masks Hshape), (len0_masks tiles masks Hshape).
  rewrite nth_tabulate by exact Hq.
  apply (fold_left_preserves _ (fun acc => acc = 0)); [|reflexivity].
  intros acc i Hi ->. apply in_seq in Hi.
  fold (mask_at tiles masks i q). rewrite Hnone by lia. reflexivity.
Qed.

Lemma fuse_mean_no_cover (uninit : nat -> spec_float) :
  (forall k, is_valid float64 (uninit k) = true) ->
  nth q (data (fuse_mean uninit tiles masks)) 0 = 0.
Proof.
  intros Hvalid. unfold fuse_mean, astype_F2I. cbn [data].
  set (weights := sanitize float64 _).
  set (prod := np_mul_int_float tiles weights).
  unfold np_sum_axis0_float. cbn [data].
  change (plane prod) with P. change (len0 prod) with N.
  change (dtype prod) with float64.
  rewrite (nth_map_lt _ _ _ fzero) by (rewrite length_tabulate; exact Hq).
  rewrite nth_tabulate by exact Hq.
  apply zero_column_sum. intros i Hi.
  destruct (stack_index N P i q) as [Hk Hmod]; [lia | exact Hq |].
  subst prod. unfold np_mul_int_float. cbn [data dtype].
  rewrite nth_tabulate by (rewrite Htiles; exact Hk).
  change (result_type (dtype tiles) (dtype weights)) with float64.
  fold (sample_at tiles i q). rewrite Hzero by exact Hi.
  apply fmul_zero_l.
  subst weights. unfold sanitize, true_divide_where. cbn [data dtype].
  rewrite (nth_map_lt _ _ _ fzero) by (rewrite length_tabulate, Hmasks; exact Hk).
  rewrite nth_tabulate by (rewrite Hmasks; exact Hk).
  change (numel (tl (shape masks))) with (plane masks).
  rewrite (plane_masks tiles masks Hshape), Hmod, mask_count_zero. cbv iota.
  change (0 <? 0) with false. cbv iota.
  destruct (sanitize_valid float64 (uninit (i * P + q)%nat) (Hvalid _)) as [Hv Hf].
  apply (F2F_finite_or_zero float64 float64); auto.
Qed.

Variable distance_transform_edt : edt_fn.

Hypothesis Hbackground :
  forall i, (i < N)%nat -> is_zero (edt_at distance_transform_edt masks i q) = true.

Lemma fuse_linear_no_cover (uninit : nat -> spec_float) :
  (forall k, is_valid float32 (uninit k) = true) ->
  nth q (data (fuse_linear distance_transform_edt uninit tiles masks)) 0 = 0.
Proof.
  intros Hvalid. unfold fuse_linear.
  destruct (1 <? N)%nat.
  - set (weights0 := NDArray float32 (shape masks) _).
    set (denominator := np_sum_axis0_float weights0).
    set (weights := sanitize float32 _).
    set (prod := np_mul_int_float tiles weights).
    set (rd := result_type (dtype tiles) float32) in *.
    assert (Hw0 : forall i, (i < N)%nat ->
              is_zero (nth (i * P + q) (data weights0) fzero) = true).
    { intros i Hi. destruct (stack_index N P i q) as [Hk Hmod]; [lia | exact Hq |].
      subst weights0. cbn [data].
      rewrite nth_tabulate by (rewrite Hmasks; exact Hk).
      rewrite (plane_masks tiles masks Hshape), Hmod, stack_index_div by exact Hq.
      fold (edt_at distance_transform_edt masks i q).
      pose proof (Hbackground i Hi) as Hz.
      destruct (edt_at distance_transform_edt masks i q); cbn in *; congruence. }
    assert (Hden : is_zero (nth q (data denominator) fzero) = true).
    { subst denominator. unfold np_sum_axis0_float. cbn [data].
      change (plane weights0) with (plane masks). change (len0 weights0) with (len0 masks).
      rewrite (plane_masks tiles masks Hshape), (len0_masks tiles masks Hshape).
      rewrite nth_tabulate by exact Hq.
      apply (fold_left_preserves _ (fun acc => is_zero acc = true)); [|reflexivity].
      intros acc i Hi Hacc. apply in_seq in Hi. apply fadd_zero_zero; [exact Hacc|].
      apply Hw0. lia. }
    unfold astype_F2I. cbn [data].
    unfold np_sum_axis0_float. cbn [data].
    change (plane prod) with P. change (len0 prod) with N. change (dtype prod) with rd.
    rewrite (nth_map_lt _ _ _ fzero) by (rewrite length_tabulate; exact Hq).
    rewrite nth_tabulate by exact Hq.
    apply zero_column_sum. intros i Hi.
    destruct (stack_index N P i q) as [Hk Hmod]; [lia | exact Hq |].
    subst prod. unfold np_mul_int_float. cbn [data dtype].
    rewrite nth_tabulate by (rewrite Htiles; exact Hk).
    change (result_type (dtype tiles) (dtype weights)) with rd.
    fold (sample_at tiles i q). rewrite Hzero by exact Hi.
    apply fmul_zero_l.
    subst weights. unfold sanitize, true_divide_where. cbn [data dtype].
    change (length (data weights0)) with (length (tabulate (length (data masks))
      (fun k => F2F float32 (nth (k mod plane masks)
         (data (distance_transform_edt
                  (astype_B2F float32 (take0 masks (k / plane masks))))) fzero)))).
    rewrite length_tabulate.
    rewrite (nth_map_lt _ _ _ fzero) by (rewrite length_tabulate, Hmasks; exact Hk).
    rewrite nth_tabulate by (rewrite Hmasks; exact Hk).
    change (numel (tl (shape weights0))) with (plane masks).
    rewrite (plane_masks tiles masks Hshape), Hmod.
    assert (Hlt : SFltb (Z2F float32 0) (nth q (data denominator) fzero) = false)
      by (destruct (nth q (data denominator) fzero); try discriminate Hden; reflexivity).
    rewrite Hlt.
    destruct (sanitize_valid float32 (uninit (i * P + q)%nat) (Hvalid _)) as [Hv Hf].
    apply (F2F_finite_or_zero float32 rd); auto.
    subst rd. unfold result_type. destruct (bits (dtype tiles) <=? 16); auto.
  - unfold astype_int, np_sum_axis0_int, np_mul_int_bool. cbn [data dtype shape].
    set (mul := NDArray (dtype tiles) (shape tiles) _).
    change (plane mul) with P. change (len0 mul) with N.
    rewrite (nth_map_lt _ _ _ 0) by (rewrite length_tabulate; exact Hq).
    rewrite nth_tabulate by exact Hq.
    rewrite wrap_fold_sum by apply bits_sum_dtype.
    rewrite (map_ext_in _ (fun _ => 0)).
    + replace (Zsum (map (fun _ : nat => 0) (seq 0 N))) with 0; [apply wrap_zero|].
      induction (seq 0 N) as [|i l IH]; [reflexivity|]. cbn [map Zsum fold_right].
      unfold Zsum in IH. now rewrite <- IH.
    + intros i Hi. apply in_seq in Hi.
      destruct (stack_index N P i q) as [Hk Hmod]; [lia | exact Hq |].
      subst mul. cbn [data].
      rewrite nth_tabulate by (rewrite Htiles; exact Hk).
      fold (mask_at tiles masks i q). rewrite Hnone by lia.
      cbn [Z.b2z]. rewrite Z.mul_0_r. apply wrap_zero.
Qed.
End NoCover.

(** At a pixel that no mask covers and where every tile holds 0 - what the
    resampler's zero fill leaves outside a tile - mean and linear fusion
    return 0 whatever genuine floats the uninitialised weight buffer
    contains. *)
Lemma fuse_uncovered_zero_samples (distance_transform_edt : edt_fn)
    (uninit uninit' : nat -> spec_float) (tiles : iarray) (masks : barray) (q : nat) :
  well_shaped tiles masks ->
  (q < plane tiles)%nat ->
  (forall i, (i < len0 tiles)%nat -> mask_at tiles masks i q = false) ->
  (forall i, (i < len0 tiles)%nat -> sample_at tiles i q = 0) ->
  (forall i, (i < len0 tiles)%nat ->
     is_zero (edt_at distance_transform_edt masks i q) = true) ->
  (forall k, is_valid float64 (uninit k) = true) ->
  (forall k, is_valid float32 (uninit' k) = true) ->
  nth q (data (fuse_mean uninit tiles masks)) 0 = 0
  /\ nth q (data (fuse_linear distance_transform_edt uninit' tiles masks)) 0 = 0.
Proof.
  intros [Hshape [Htiles Hmasks]] Hq Hnone Hzero Hbg Hv Hv'. split.
  - now apply fuse_mean_no_cover.
  - now apply fuse_linear_no_cover.
Qed.

(** Two tiles with a gap between them, and a buffer full of 1.0. *)
Example fuse_uncovered_zero_samples_gap :
  nth 1 (data (fuse_mean (fun _ => fone float64) gap_tiles gap_masks)) 0 = 0
  /\ nth 1 (data (fuse_linear edt_reference (fun _ => fone float32)
                    gap_tiles gap_masks)) 0 = 0.
Proof.
  apply (fuse_uncovered_zero_samples edt_reference).
  - repeat split.
  - cbn. lia.
  - intros [|[|i]] Hi; [reflexivity | reflexivity | cbn in Hi; lia].
  - intros [|[|i]] Hi; [reflexivity | reflexivity | cbn in Hi; lia].
  - intros [|[|i]] Hi; [reflexivity | reflexivity | cbn in Hi; lia].
  - reflexivity.
  - reflexivity.
Qed.

(** ** Pixels that no mask covers *)

(** C4: where the summed masks (or summed distances) are 0 the division
    is skipped and the weight is whatever the freshly allocated result
    buffer of [np.true_divide] contains, sanitised into [0, 1].  On a
    pixel that no mask covers but where the tiles hold 7 (and 9), a buffer
    holding 1.0 gives 7 under mean fusion and 16 under linear fusion with
    two tiles; a buffer holding 0.0 gives 0. *)
Theorem fuse_uncovered_pixel_reads_buffer :
  fuse_mean (fun _ => fone float64) uncovered_one uncovered_one_mask
  = NDArray uint16 [1; 1]%nat [7]
  /\ fuse_mean (fun _ => fzero) uncovered_one uncovered_one_mask
     = NDArray uint16 [1; 1]%nat [0]
  /\ fuse_linear edt_reference (fun _ => fone float32) uncovered_two uncovered_two_mask
     = NDArray uint16 [1; 1]%nat [16]
  /\ fuse_linear edt_reference (fun _ => fzero) uncovered_two uncovered_two_mask
     = NDArray uint16 [1; 1]%nat [0].
Proof. vm_compute. repeat split; reflexivity. Qed.

(** * Further properties *)

(** ** The warp engine, pixel by pixel *)

Lemma list_comprehension_related {W A B} (R : A -> B -> Prop) (f : A -> M W B)
    (xs : list A) (w : W) :
  Forall (fun x => exists y, f x w = (Ok y, w) /\ R x y) xs ->
  exists ys, list_comprehension xs f w = (Ok ys, w) /\ Forall2 R xs ys.
Proof.
  induction 1 as [|x xs [y [Hy HR]] _ [ys [Hys HRs]]].
  - exists []. split; [reflexivity | constructor].
  - exists (y :: ys). split; [|now constructor].
    cbn [list_comprehension].
    erewrite mbind_ok; [|exact Hy]. erewrite mbind_ok; [|exact Hys]. reflexivity.
Qed.

Lemma nth_concat_planes {A} (p : nat) (ls : list (list A)) (i q : nat) (d : A) :
  Forall (fun l => length l = p) ls -> (q < p)%nat ->
  nth (i * p + q) (concat ls) d = nth q (nth i ls []) d.
Proof.
  intros Hls Hq. revert i. induction Hls as [|l ls Hl _ IH]; intros i.
  - cbn [concat]. destruct (i * p + q)%nat, i, q; reflexivity.
  - destruct i as [|i]; cbn [concat nth].
    + rewrite Nat.mul_0_l, Nat.add_0_l. apply app_nth1. lia.
    + rewrite app_nth2 by lia.
      replace (S i * p + q - length l)%nat with (i * p + q)%nat by lia.
      apply IH.
Qed.

Lemma pixel_index (H W r c : nat) :
  (r < H)%nat -> (c < W)%nat ->
  (r * W + c < H * W)%nat /\ ((r * W + c) mod W = c)%nat /\ ((r * W + c) / W = r)%nat.
Proof.
  intros Hr Hc. split; [nia|]. split.
  - rewrite Nat.add_comm, Nat.Div0.mod_add. now apply Nat.mod_small.
  - now apply stack_index_div.
Qed.

Lemma channel_index (k ch : nat) :
  (ch < 2)%nat -> ((k * 2 + ch) mod 2 = ch)%nat /\ ((k * 2 + ch) / 2 = k)%nat.
Proof.
  intros Hch. split.
  - rewrite Nat.add_comm, Nat.Div0.mod_add. now apply Nat.mod_small.
  - now apply stack_index_div.
Qed.

Lemma warp_one_tile {W : Type} (dt : int_dtype) (y0 x0 : Z) (H Wd : nat)
    (t : Tile) (w : W) :
  loadable t ->
  exists a m,
    (do warped <- skimage_warp
                    (np_stack_last (load_data t) (np_ones_like (load_data t)))
                    (np_sub_int64 x0 (snd (get_yx_position t)),
                     np_sub_int64 y0 (fst (get_yx_position t))) [H; Wd];
     mret (astype_F2I dt (channel_of fzero 0 warped),
           astype_F2B (channel_of fzero 1 warped))) w = (Ok (a, m), w)
    /\ shape a = [H; Wd] /\ shape m = [H; Wd] /\ dtype a = dt
    /\ length (data a) = (H * Wd)%nat /\ length (data m) = (H * Wd)%nat
    /\ forall r c, (r < H)%nat -> (c < Wd)%nat ->
         nth (r * Wd + c) (data a) 0 = warped_sample dt y0 x0 t r c
         /\ nth (r * Wd + c) (data m) false = inside_tile y0 x0 t r c.
Proof.
  intros [h [wd [Hsh [Hpos [Hlen Hrep]]]]].
  unfold skimage_warp, np_stack_last, load_data. cbn [shape]. rewrite Hsh.
  cbn [app]. destruct (numel [h; wd; 2%nat] =? 0)%nat eqn:E;
    [apply Nat.eqb_eq in E; cbn in E; lia|].
  eexists _, _. split; [reflexivity|].
  unfold astype_F2I, astype_F2B, channel_of. cbn [shape dtype data List.last removelast numel fold_right].
  rewrite !length_map, !length_tabulate, Nat.mul_1_r.
  repeat (split; [reflexivity|]).
  intros r c Hr Hc.
  destruct (pixel_index H Wd r c Hr Hc) as [Hk [Hmod Hdiv]].
  destruct (channel_index (r * Wd + c) 0) as [Hm0 Hd0]; [lia|].
  destruct (channel_index (r * Wd + c) 1) as [Hm1 Hd1]; [lia|].
  rewrite (nth_map_lt _ _ _ fzero), (nth_map_lt _ _ _ fzero)
    by (rewrite length_tabulate; exact Hk).
  rewrite !(nth_tabulate (H * Wd)) by exact Hk.
  rewrite !(nth_tabulate (H * Wd * 2)) by lia.
  rewrite Hm0, Hd0, Hm1, Hd1, Hmod, Hdiv.
  cbn [fst snd get_yx_position].
  unfold warped_sample, inside_tile, source_sample, source_place.
  rewrite Hsh. cbn [nth].
  set (src_row := Z.of_nat r + np_sub_int64 y0 (y (position t))).
  set (src_col := Z.of_nat c + np_sub_int64 x0 (x (position t))).
  destruct ((0 <=? src_row) && (src_row <? Z.of_nat h)
            && (0 <=? src_col) && (src_col <? Z.of_nat wd)) eqn:Hin.
  - apply andb_prop in Hin as [Hin Hc2]. apply andb_prop in Hin as [Hin Hc1].
    apply andb_prop in Hin as [Hr1 Hr2].
    apply Z.leb_le in Hr1, Hc1. apply Z.ltb_lt in Hr2, Hc2.
    set (idx := (Z.to_nat src_row * wd + Z.to_nat src_col)%nat).
    assert (Hidx : (idx < h * wd)%nat) by (unfold idx; nia).
    destruct (channel_index idx 0) as [Hi0 Hj0]; [lia|].
    destruct (channel_index idx 1) as [Hi1 Hj1]; [lia|].
    rewrite !nth_tabulate by (rewrite Hlen; lia).
    rewrite Hi0, Hj0, Hi1, Hj1. cbn [Nat.eqb].
    split.
    + unfold F2I. rewrite Ftrunc_Z2F; [reflexivity|].
      rewrite Forall_forall in Hrep. apply Hrep, list_elem_of_In, nth_In.
      rewrite Hlen. exact Hidx.
    + unfold np_ones_like. cbn [data].
      rewrite (nth_map_lt _ _ _ 0) by (rewrite Hlen; exact Hidx). reflexivity.
  - split; [apply wrap_zero | reflexivity].
Qed.

Lemma length_concat_planes {A} (p : nat) (ls : list (list A)) :
  Forall (fun l => length l = p) ls -> length (concat ls) = (length ls * p)%nat.
Proof.
  induction 1 as [|l ls Hl _ IH]; [reflexivity|].
  cbn [concat length]. rewrite length_app, IH, Hl. lia.
Qed.

Lemma translate_tiles_2d_run {W : Type} (bi : block_info) (y0 y1 x0 x1 : Z)
    (H Wd : nat) (dt : int_dtype) (tiles : list Tile) (w : W) :
  nth_error (array_location bi) 3 = Some (y0, y1) ->
  nth_error (array_location bi) 4 = Some (x0, x1) ->
  Forall loadable tiles ->
  exists planes,
    translate_tiles_2d skimage_warp bi [H; Wd] dt tiles w
    = (Ok (np_array dt (map fst planes), np_array tt (map snd planes)), w)
    /\ Forall2 (warps_to dt y0 x0 H Wd) tiles planes.
Proof.
  intros E3 E4 Hload. unfold translate_tiles_2d. rewrite E3, E4.
  match goal with |- context [list_comprehension tiles ?f] =>
    destruct (list_comprehension_related (warps_to dt y0 x0 H Wd) f tiles w)
      as [planes [Hrun Hrel]]
  end.
  - eapply Forall_impl; [exact Hload|]. intros t Ht.
    destruct (warp_one_tile (W := W) dt y0 x0 H Wd t w Ht) as [a [m [Hbody Hprops]]].
    exists (a, m). split; [exact Hbody | exact Hprops].
  - exists planes. split; [|exact Hrel].
    erewrite mbind_ok; [|exact Hrun]. reflexivity.
Qed.

(** The stack that [np.array] builds from the planes of the tiles. *)
Lemma stacked_planes (dt : int_dtype) (y0 x0 : Z) (H Wd : nat)
    (tiles : list Tile) (planes : list (iarray * barray)) :
  Forall2 (warps_to dt y0 x0 H Wd) tiles planes -> tiles <> [] ->
  let wt := np_array dt (map fst planes) in
  let wm := np_array tt (map snd planes) in
  shape wt = [length tiles; H; Wd] /\ shape wm = [length tiles; H; Wd]
  /\ dtype wt = dt
  /\ length (data wt) = (length tiles * (H * Wd))%nat
  /\ length (data wm) = (length tiles * (H * Wd))%nat
  /\ forall i t r c, tiles !! i = Some t -> (r < H)%nat -> (c < Wd)%nat ->
       nth (i * (H * Wd) + (r * Wd + c)) (data wt) 0 = warped_sample dt y0 x0 t r c
       /\ nth (i * (H * Wd) + (r * Wd + c)) (data wm) false = inside_tile y0 x0 t r c.
Proof.
  intros Hrel Hne wt wm.
  assert (Hlen : length planes = length tiles) by (symmetry; eapply Forall2_length; eauto).
  assert (Hpa : Forall (fun l => length l = (H * Wd)%nat) (map data (map fst planes))).
  { apply Forall_map, Forall_map. clear -Hrel.
    induction Hrel as [|t p ts ps Hp _ IH]; constructor; [|exact IH].
    now destruct Hp as (_ & _ & _ & Ha & _). }
  assert (Hpm : Forall (fun l => length l = (H * Wd)%nat) (map data (map snd planes))).
  { apply Forall_map, Forall_map. clear -Hrel.
    induction Hrel as [|t p ts ps Hp _ IH]; constructor; [|exact IH].
    now destruct Hp as (_ & _ & _ & _ & Hm & _). }
  destruct planes as [|[a0 m0] planes];
    [destruct tiles; [congruence | discriminate Hlen]|].
  inversion Hrel as [|t0 ? ts ? (Ha0 & Hm0 & Hd0 & _) _]; subst.
  subst wt wm. unfold np_array. cbn [map fst snd shape dtype data].
  cbn [fst snd] in Ha0, Hm0. rewrite Ha0, Hm0.
  change (length (a0 :: map fst planes)) with (length (map fst ((a0, m0) :: planes))).
  change (length (m0 :: map snd planes)) with (length (map snd ((a0, m0) :: planes))).
  rewrite !length_map, Hlen.
  split; [reflexivity|]. split; [reflexivity|]. split; [reflexivity|].
  change (data a0 :: map data (map fst planes))
    with (map data (map fst ((a0, m0) :: planes))).
  change (data m0 :: map data (map snd planes))
    with (map data (map snd ((a0, m0) :: planes))).
  split; [rewrite (length_concat_planes (H * Wd)), !length_map by exact Hpa; now rewrite Hlen|].
  split; [rewrite (length_concat_planes (H * Wd)), !length_map by exact Hpm; now rewrite Hlen|].
  intros i t r c Hi Hr Hc.
  destruct (pixel_index H Wd r c Hr Hc) as [Hk _].
  destruct (Forall2_lookup_l _ _ _ _ _ Hrel Hi) as [[a m] [Hp Hw]].
  destruct Hw as (_ & _ & _ & _ & _ & Hpix). destruct (Hpix r c Hr Hc) as [Hs Hmk].
  rewrite !(nth_concat_planes (H * Wd)) by assumption.
  rewrite (nth_lookup_Some _ i [] (data a)), (nth_lookup_Some _ i [] (data m)).
  - split; assumption.
  - rewrite !list_lookup_fmap, Hp. reflexivity.
  - rewrite !list_lookup_fmap, Hp. reflexivity.
Qed.

(** X1: the warp engine with the order-0 resampler places every tile at
    its position.  For a block with origin (y0, x0) and y/x shape (H, W)
    and tiles whose pixel arrays are 2-D, non-empty and exact in float64,
    it returns a sample stack and a mask stack of shape (N, H, W) in the
    requested dtype; entry (i, r, c) of the masks tells whether block pixel
    (r, c) lies inside tile i, and entry (i, r, c) of the samples is the
    tile's sample at that place, stored in the dtype, or 0 outside the
    tile. *)
Theorem translate_tiles_2d_places_tiles {W : Type} (bi : block_info)
    (y0 y1 x0 x1 : Z) (H Wd : nat) (dt : int_dtype) (tiles : list Tile) (w : W) :
  nth_error (array_location bi) 3 = Some (y0, y1) ->
  nth_error (array_location bi) 4 = Some (x0, x1) ->
  Forall loadable tiles ->
  tiles <> [] ->
  exists wt wm,
    translate_tiles_2d skimage_warp bi [H; Wd] dt tiles w = (Ok (wt, wm), w)
    /\ shape wt = [length tiles; H; Wd] /\ shape wm = [length tiles; H; Wd]
    /\ dtype wt = dt
    /\ forall i t r c, tiles !! i = Some t -> (r < H)%nat -> (c < Wd)%nat ->
         nth (i * (H * Wd) + (r * Wd + c)) (data wm) false = inside_tile y0 x0 t r c
         /\ nth (i * (H * Wd) + (r * Wd + c)) (data wt) 0
            = if inside_tile y0 x0 t r c then wrap dt (source_sample y0 x0 t r c) else 0.
Proof.
  intros E3 E4 Hload Hne.
  destruct (translate_tiles_2d_run bi y0 y1 x0 x1 H Wd dt tiles w E3 E4 Hload)
    as [planes [Hrun Hrel]].
  destruct (stacked_planes dt y0 x0 H Wd tiles planes Hrel Hne)
    as (Hwt & Hwm & Hdt & _ & _ & Hpix).
  eexists _, _. split; [exact Hrun|]. repeat (split; [assumption|]).
  intros i t r c Hi Hr Hc. destruct (Hpix i t r c Hi Hr Hc) as [Hs Hm].
  split; [exact Hm | exact Hs].
Qed.

(** The two tiles of the end-to-end example in the 4x6 block. *)
Lemma translate_tiles_2d_places_tiles_witness :
  exists wt wm,
    translate_tiles_2d skimage_warp block_4x6 [4; 6]%nat uint16
      [tile_A uint16; tile_B uint16] tt = (Ok (wt, wm), tt)
    /\ shape wt = [length [tile_A uint16; tile_B uint16]; 4; 6]%nat
    /\ shape wm = [length [tile_A uint16; tile_B uint16]; 4; 6]%nat
    /\ dtype wt = uint16
    /\ forall i t r c, [tile_A uint16; tile_B uint16] !! i = Some t ->
         (r < 4)%nat -> (c < 6)%nat ->
         nth (i * (4 * 6) + (r * 6 + c)) (data wm) false = inside_tile 0 0 t r c
         /\ nth (i * (4 * 6) + (r * 6 + c)) (data wt) 0
            = if inside_tile 0 0 t r c then wrap uint16 (source_sample 0 0 t r c) else 0.
Proof.
  apply (translate_tiles_2d_places_tiles (W := unit) block_4x6 0 4 0 6 4 6 uint16
           [tile_A uint16; tile_B uint16] tt).
  - reflexivity.
  - reflexivity.
  - repeat constructor; exists 4%nat, 4%nat;
      (split; [reflexivity|]; split; [lia|]; split; [reflexivity|]);
      repeat constructor; vm_compute; reflexivity.
  - discriminate.
Defined.

(** ** The assembler over the warp engine *)

Lemma map_seq_lookup {A B} (g : nat -> B) (f : A -> B) (l : list A) :
  (forall i a, l !! i = Some a -> g i = f a) ->
  map g (seq 0 (length l)) = map f l.
Proof.
  enough (Hgen : forall s, (forall i a, l !! i = Some a -> g (s + i)%nat = f a) ->
                      map g (seq s (length l)) = map f l)
    by (intros Hg; apply (Hgen 0%nat); exact Hg).
  induction l as [|a l IH]; intros s Hg; [reflexivity|].
  cbn [length seq map]. f_equal.
  - rewrite <- (Hg 0%nat a) by reflexivity. f_equal. lia.
  - apply IH. intros i b Hi. rewrite <- (Hg (S i) b) by exact Hi. f_equal. lia.
Qed.

Lemma plane_of_stack {T A} (a : ndarray T A) (n H Wd : nat) :
  shape a = [n; H; Wd] -> plane a = (H * Wd)%nat /\ len0 a = n.
Proof. intros Hs. unfold plane, len0. rewrite Hs. cbn. split; lia. Qed.

Lemma assemble_chunk_run {W : Type} (bi : block_info)
    (tile_map : gmap (list nat) (list Tile)) (y0 y1 x0 x1 : Z) (H Wd : nat)
    (dt : int_dtype) (tiles : list Tile) (w : W) :
  tile_map !! chunk_location bi = Some tiles ->
  tiles <> [] ->
  last2 (chunk_shape bi) = [H; Wd] ->
  nth_error (array_location bi) 3 = Some (y0, y1) ->
  nth_error (array_location bi) 4 = Some (x0, x1) ->
  Forall loadable tiles ->
  exists planes,
    Forall2 (warps_to dt y0 x0 H Wd) tiles planes
    /\ forall fuse : iarray -> barray -> iarray,
         assemble_chunk bi tile_map (translate_tiles_2d skimage_warp)
           (pure_fuse fuse) dt w
         = (Ok (newaxis3 (astype_int dt
                  (fuse (np_array dt (map fst planes)) (np_array tt (map snd planes))))),
            w).
Proof.
  intros Hmap Hne Hsh E3 E4 Hload.
  destruct (translate_tiles_2d_run bi y0 y1 x0 x1 H Wd dt tiles w E3 E4 Hload)
    as [planes [Hrun Hrel]].
  exists planes. split; [exact Hrel|]. intros fuse.
  unfold assemble_chunk. rewrite Hmap, Hsh.
  destruct tiles as [|t tiles]; [congruence|]. cbn [length Nat.ltb Nat.leb].
  erewrite mbind_ok; [|exact Hrun]. reflexivity.
Qed.

(** X2: assembling with sum fusion.  Every pixel (r, c) of the block is the
    sum, stored in the dtype, of what the tiles of the block's list
    contribute there: the sample of each tile that contains the pixel and
    0 for the others.  The block has shape (1, 1, 1, H, W). *)
Theorem assemble_chunk_sum_of_contributions {W : Type} (bi : block_info)
    (tile_map : gmap (list nat) (list Tile)) (y0 y1 x0 x1 : Z) (H Wd : nat)
    (dt : int_dtype) (tiles : list Tile) (w : W) :
  tile_map !! chunk_location bi = Some tiles ->
  tiles <> [] ->
  last2 (chunk_shape bi) = [H; Wd] ->
  nth_error (array_location bi) 3 = Some (y0, y1) ->
  nth_error (array_location bi) 4 = Some (x0, x1) ->
  Forall loadable tiles ->
  exists img,
    assemble_chunk bi tile_map (translate_tiles_2d skimage_warp)
      (pure_fuse fuse_sum) dt w = (Ok img, w)
    /\ shape img = [1; 1; 1; H; Wd]%nat /\ dtype img = dt
    /\ forall r c, (r < H)%nat -> (c < Wd)%nat ->
         nth (r * Wd + c) (data img) 0
         = wrap dt (Zsum (map (fun t => warped_sample dt y0 x0 t r c) tiles)).
Proof.
  intros Hmap Hne Hsh E3 E4 Hload.
  destruct (assemble_chunk_run bi tile_map y0 y1 x0 x1 H Wd dt tiles w
              Hmap Hne Hsh E3 E4 Hload) as [planes [Hrel Hrun]].
  destruct (stacked_planes dt y0 x0 H Wd tiles planes Hrel Hne)
    as (Hwt & Hwm & Hdt & _ & _ & Hpix).
  set (wt := np_array dt (map fst planes)) in *.
  set (wm := np_array tt (map snd planes)) in *.
  destruct (plane_of_stack wt _ _ _ Hwt) as [Hplane Hlen0].
  eexists. split; [apply Hrun|]. split; [|split; [reflexivity|]].
  - cbn [newaxis3 astype_int shape fuse_sum np_sum_axis0_int]. now rewrite Hwt.
  - intros r c Hr Hc. destruct (pixel_index H Wd r c Hr Hc) as [Hk _].
    cbn [newaxis3 astype_int data].
    rewrite (nth_map_lt _ _ _ 0).
    + rewrite fuse_sum_pixel by (rewrite Hplane; exact Hk).
      rewrite Hdt, wrap_idem. do 2 f_equal.
      unfold column. rewrite Hlen0, Hplane. apply map_seq_lookup.
      intros i t Hi. now apply (Hpix i t r c Hi Hr Hc).
    + unfold fuse_sum, astype_int, np_sum_axis0_int. cbn [data].
      rewrite length_map, length_tabulate, Hplane. exact Hk.
Qed.

(** The end-to-end tiles under sum fusion. *)
Lemma assemble_chunk_sum_of_contributions_witness :
  exists img,
    assemble_chunk block_4x6 (tile_map_AB uint16) (translate_tiles_2d skimage_warp)
      (pure_fuse fuse_sum) uint16 tt = (Ok img, tt)
    /\ shape img = [1; 1; 1; 4; 6]%nat /\ dtype img = uint16
    /\ forall r c, (r < 4)%nat -> (c < 6)%nat ->
         nth (r * 6 + c) (data img) 0
         = wrap uint16 (Zsum (map (fun t => warped_sample uint16 0 0 t r c)
                                  [tile_A uint16; tile_B uint16])).
Proof.
  apply (assemble_chunk_sum_of_contributions (W := unit) block_4x6 (tile_map_AB uint16)
           0 4 0 6 4 6 uint16 [tile_A uint16; tile_B uint16] tt).
  - reflexivity.
  - discriminate.
  - reflexivity.
  - reflexivity.
  - reflexivity.
  - repeat constructor; exists 4%nat, 4%nat;
      (split; [reflexivity|]; split; [lia|]; split; [reflexivity|]);
      repeat constructor; vm_compute; reflexivity.
Defined.

Lemma stack_as_columns (dt : int_dtype) (y0 x0 : Z) (H Wd : nat)
    (tiles : list Tile) (planes : list (iarray * barray)) :
  Forall2 (warps_to dt y0 x0 H Wd) tiles planes -> tiles <> [] ->
  let wt := np_array dt (map fst planes) in
  let wm := np_array tt (map snd planes) in
  shape wm = shape wt
  /\ length (data wt) = (len0 wt * plane wt)%nat
  /\ length (data wm) = (len0 wt * plane wt)%nat
  /\ plane wt = (H * Wd)%nat /\ len0 wt = length tiles /\ dtype wt = dt
  /\ forall i t r c, tiles !! i = Some t -> (r < H)%nat -> (c < Wd)%nat ->
       sample_at wt i (r * Wd + c) = warped_sample dt y0 x0 t r c
       /\ mask_at wt wm i (r * Wd + c) = inside_tile y0 x0 t r c.
Proof.
  intros Hrel Hne wt wm.
  destruct (stacked_planes dt y0 x0 H Wd tiles planes Hrel Hne)
    as (Hwt & Hwm & Hdt & Hlt & Hlm & Hpix).
  fold wt wm in Hwt, Hwm, Hdt, Hlt, Hlm, Hpix.
  destruct (plane_of_stack wt _ _ _ Hwt) as [Hplane Hlen0].
  rewrite Hplane, Hlen0. repeat (split; [congruence|]).
  intros i t r c Hi Hr Hc. unfold sample_at, mask_at. rewrite Hplane.
  now apply Hpix.
Qed.

Lemma zero_entry_of_mask (fd : float_dtype) (l : list bool) (q : nat) :
  nth q l false = false ->
  is_zero (nth q (map (fun b => B2F b fd) l) fzero) = true.
Proof.
  intros Hq. destruct (Nat.lt_ge_cases q (length l)) as [Hlt|Hge].
  - rewrite (nth_map_lt _ _ _ false) by exact Hlt. now rewrite Hq.
  - rewrite nth_overflow by (rewrite length_map; exact Hge). reflexivity.
Qed.

Lemma nth_take0 {T A} (a : ndarray T A) (i q : nat) (d : A) :
  (q < plane a)%nat -> nth q (data (take0 a i)) d = nth (i * plane a + q) (data a) d.
Proof.
  intros Hq. unfold take0. cbn [data].
  rewrite nth_firstn, nth_skipn.
  destruct (Nat.ltb_spec q (plane a)); [reflexivity | lia].
Qed.

(** X3: assembling with mean or linear fusion leaves 0 at every pixel of
    the block that lies outside all tiles, whatever genuine floats the
    uninitialised weight buffers hold; for linear fusion the distance
    transform is 0 at the zero entries of its argument. *)
Theorem assemble_chunk_outside_all_tiles {W : Type} (bi : block_info)
    (tile_map : gmap (list nat) (list Tile)) (y0 y1 x0 x1 : Z) (H Wd : nat)
    (dt : int_dtype) (tiles : list Tile) (w : W)
    (distance_transform_edt : edt_fn) (uninit uninit' : nat -> spec_float)
    (r c : nat) :
  tile_map !! chunk_location bi = Some tiles ->
  tiles <> [] ->
  last2 (chunk_shape bi) = [H; Wd] ->
  nth_error (array_location bi) 3 = Some (y0, y1) ->
  nth_error (array_location bi) 4 = Some (x0, x1) ->
  Forall loadable tiles ->
  (r < H)%nat -> (c < Wd)%nat ->
  (forall t, t ∈ tiles -> inside_tile y0 x0 t r c = false) ->
  (forall k, is_valid float64 (uninit k) = true) ->
  (forall k, is_valid float32 (uninit' k) = true) ->
  (forall (a : farray) (q : nat),
     is_zero (nth q (data a) fzero) = true ->
     is_zero (nth q (data (distance_transform_edt a)) fzero) = true) ->
  exists img img',
    assemble_chunk bi tile_map (translate_tiles_2d skimage_warp)
      (pure_fuse (fuse_mean uninit)) dt w = (Ok img, w)
    /\ nth (r * Wd + c) (data img) 0 = 0
    /\ assemble_chunk bi tile_map (translate_tiles_2d skimage_warp)
         (pure_fuse (fuse_linear distance_transform_edt uninit')) dt w = (Ok img', w)
    /\ nth (r * Wd + c) (data img') 0 = 0.
Proof.
  intros Hmap Hne Hsh E3 E4 Hload Hr Hc Hout Hv Hv' Hedt.
  destruct (assemble_chunk_run bi tile_map y0 y1 x0 x1 H Wd dt tiles w
              Hmap Hne Hsh E3 E4 Hload) as [planes [Hrel Hrun]].
  destruct (stack_as_columns dt y0 x0 H Wd tiles planes Hrel Hne)
    as (Hshape & Hlt & Hlm & Hplane & Hlen0 & Hdt & Hpix).
  set (wt := np_array dt (map fst planes)) in *.
  set (wm := np_array tt (map snd planes)) in *.
  destruct (pixel_index H Wd r c Hr Hc) as [Hk _].
  assert (Hq : (r * Wd + c < plane wt)%nat) by (rewrite Hplane; exact Hk).
  assert (Hcol : forall i, (i < len0 wt)%nat ->
            mask_at wt wm i (r * Wd + c) = false /\ sample_at wt i (r * Wd + c) = 0).
  { intros i Hi. rewrite Hlen0 in Hi.
    destruct (lookup_lt_is_Some_2 tiles i Hi) as [t Ht].
    destruct (Hpix i t r c Ht Hr Hc) as [Hs Hm].
    assert (Hin : inside_tile y0 x0 t r c = false)
      by (apply Hout; eapply list_elem_of_lookup_2; exact Ht).
    rewrite Hs, Hm. unfold warped_sample. rewrite Hin. now split. }
  eexists _, _. split; [apply Hrun|]. split; [|split; [apply Hrun|]].
  - cbn [newaxis3 astype_int data].
    rewrite (nth_map_lt _ _ _ 0).
    + rewrite fuse_mean_no_cover; try assumption; try (intros i Hi; now apply Hcol).
      apply wrap_zero.
    + unfold fuse_mean, astype_F2I, np_sum_axis0_float. cbn [data].
      rewrite length_map, length_tabulate. exact Hq.
  - cbn [newaxis3 astype_int data].
    rewrite (nth_map_lt _ _ _ 0).
    + rewrite fuse_linear_no_cover; try assumption; try (intros i Hi; now apply Hcol).
      * apply wrap_zero.
      * intros i Hi. unfold edt_at. apply Hedt. unfold astype_B2F. cbn [data].
        apply zero_entry_of_mask.
        assert (Hpm : plane wm = plane wt) by (unfold plane; now rewrite Hshape).
        rewrite nth_take0 by (rewrite Hpm; exact Hq).
        rewrite Hpm. now apply Hcol.
    + unfold fuse_linear. destruct (1 <? len0 wt)%nat;
        unfold astype_F2I, astype_int, np_sum_axis0_float, np_sum_axis0_int; cbn [data];
        rewrite length_map, length_tabulate; exact Hq.
Qed.

Lemma edt_reference_zero_at_zero (a : farray) (q : nat) :
  is_zero (nth q (data a) fzero) = true ->
  is_zero (nth q (data (edt_reference a)) fzero) = true.
Proof.
  intros Hz. unfold edt_reference. cbn [data].
  destruct (Nat.lt_ge_cases q (length (data a))) as [Hlt|Hge].
  - rewrite nth_tabulate by exact Hlt.
    destruct (nth q (data a) fzero); try discriminate. reflexivity.
  - rewrite nth_overflow by (rewrite length_tabulate; exact Hge). reflexivity.
Qed.

Lemma const_tile_loadable (dt : int_dtype) (p : TilePosition) (v : Z) :
  representable float64 v ->
  loadable (mkTile (4, 4)%nat p (const_image dt 4 4 v)).
Proof.
  intros Hv. exists 4%nat, 4%nat. cbn.
  split; [reflexivity|]. split; [lia|]. split; [reflexivity|].
  repeat constructor; exact Hv.
Qed.

(** The pixel (0, 4) of the block with the gap, with buffers full of 1.0. *)
Lemma assemble_chunk_outside_all_tiles_witness :
  exists img img',
    assemble_chunk block_4x8 (tile_map_gap uint16) (translate_tiles_2d skimage_warp)
      (pure_fuse (fuse_mean (fun _ => fone float64))) uint16 tt = (Ok img, tt)
    /\ nth (0 * 8 + 4) (data img) 0 = 0
    /\ assemble_chunk block_4x8 (tile_map_gap uint16) (translate_tiles_2d skimage_warp)
         (pure_fuse (fuse_linear edt_reference (fun _ => fone float32))) uint16 tt
       = (Ok img', tt)
    /\ nth (0 * 8 + 4) (data img') 0 = 0.
Proof.
  apply (assemble_chunk_outside_all_tiles (W := unit) block_4x8 (tile_map_gap uint16)
           0 4 0 8 4 8 uint16 [tile_A uint16; tile_far uint16] tt
           edt_reference (fun _ => fone float64) (fun _ => fone float32) 0 4).
  - reflexivity.
  - discriminate.
  - reflexivity.
  - reflexivity.
  - reflexivity.
  - repeat constructor; apply const_tile_loadable; vm_compute; reflexivity.
  - lia.
  - lia.
  - intros t Ht. apply list_elem_of_In in Ht.
    destruct Ht as [<-|[<-|[]]]; reflexivity.
  - reflexivity.
  - reflexivity.
  - exact edt_reference_zero_at_zero.
Defined.

(** X4: assembling with mean fusion copies a tile where it does not
    overlap.  A pixel of the block that lies inside exactly one tile of the
    block's list gets the sample of that tile at the place the pixel falls
    on, whatever the uninitialised weight buffer holds, provided the sample
    is a value of the output dtype (and below 2^53 in magnitude for a
    64-bit dtype). *)
Theorem assemble_chunk_mean_copies_single_tile {W : Type} (bi : block_info)
    (tile_map : gmap (list nat) (list Tile)) (y0 y1 x0 x1 : Z) (H Wd : nat)
    (dt : int_dtype) (tiles : list Tile) (w : W)
    (uninit : nat -> spec_float) (k : nat) (t : Tile) (r c : nat) :
  tile_map !! chunk_location bi = Some tiles ->
  last2 (chunk_shape bi) = [H; Wd] ->
  nth_error (array_location bi) 3 = Some (y0, y1) ->
  nth_error (array_location bi) 4 = Some (x0, x1) ->
  Forall loadable tiles ->
  (r < H)%nat -> (c < Wd)%nat ->
  tiles !! k = Some t ->
  inside_tile y0 x0 t r c = true ->
  (forall i t', tiles !! i = Some t' -> i <> k -> inside_tile y0 x0 t' r c = false) ->
  exact_in_product dt (source_sample y0 x0 t r c) ->
  exists img,
    assemble_chunk bi tile_map (translate_tiles_2d skimage_warp)
      (pure_fuse (fuse_mean uninit)) dt w = (Ok img, w)
    /\ nth (r * Wd + c) (data img) 0 = source_sample y0 x0 t r c.
Proof.
  intros Hmap Hsh E3 E4 Hload Hr Hc Hk Hin Hothers Hexact.
  assert (Hne : tiles <> []) by (intros ->; discriminate Hk).
  destruct (assemble_chunk_run bi tile_map y0 y1 x0 x1 H Wd dt tiles w
              Hmap Hne Hsh E3 E4 Hload) as [planes [Hrel Hrun]].
  destruct (stack_as_columns dt y0 x0 H Wd tiles planes Hrel Hne)
    as (Hshape & Hlt & Hlm & Hplane & Hlen0 & Hdt & Hpix).
  set (wt := np_array dt (map fst planes)) in *.
  set (wm := np_array tt (map snd planes)) in *.
  destruct (pixel_index H Wd r c Hr Hc) as [Hq _].
  assert (Hq' : (r * Wd + c < plane wt)%nat) by (rewrite Hplane; exact Hq).
  assert (Hk' : (k < len0 wt)%nat)
    by (rewrite Hlen0; eapply lookup_lt_Some; exact Hk).
  destruct (Hpix k t r c Hk Hr Hc) as [Hs Hm].
  assert (Hsample : sample_at wt k (r * Wd + c) = source_sample y0 x0 t r c).
  { rewrite Hs. unfold warped_sample. rewrite Hin.
    apply wrap_in_range, Hexact. }
  eexists. split; [apply Hrun|].
  cbn [newaxis3 astype_int data].
  rewrite (nth_map_lt _ _ _ 0).
  - rewrite (fuse_mean_one_cover wt wm (r * Wd + c)%nat k); try assumption.
    + rewrite Hsample. apply wrap_in_range, Hexact.
    + now rewrite Hm.
    + intros i Hi Hik. rewrite Hlen0 in Hi.
      destruct (lookup_lt_is_Some_2 tiles i Hi) as [t' Ht'].
      destruct (Hpix i t' r c Ht' Hr Hc) as [_ Hm']. rewrite Hm'.
      now apply (Hothers i t').
    + rewrite Hsample, Hdt. apply Hexact.
    + intros i Hi. destruct (Nat.eq_dec i k) as [->|Hik].
      * rewrite Hsample. now apply (exact_in_product_representable dt).
      * rewrite Hlen0 in Hi.
        destruct (lookup_lt_is_Some_2 tiles i Hi) as [t' Ht'].
        destruct (Hpix i t' r c Ht' Hr Hc) as [Hs' _]. rewrite Hs'.
        unfold warped_sample. rewrite (Hothers i t' Ht' Hik).
        unfold representable. cbn. lia.
  - unfold fuse_mean, astype_F2I, np_sum_axis0_float. cbn [data].
    rewrite length_map, length_tabulate. exact Hq'.
Qed.

(** Column 1 of the end-to-end block lies in the first tile alone. *)
Lemma assemble_chunk_mean_copies_single_tile_witness :
  exists img,
    assemble_chunk block_4x6 (tile_map_AB uint16) (translate_tiles_2d skimage_warp)
      (pure_fuse (fuse_mean (fun _ => S754_nan))) uint16 tt = (Ok img, tt)
    /\ nth (2 * 6 + 1) (data img) 0 = source_sample 0 0 (tile_A uint16) 2 1.
Proof.
  apply (assemble_chunk_mean_copies_single_tile (W := unit) block_4x6
           (tile_map_AB uint16) 0 4 0 6 4 6 uint16
           [tile_A uint16; tile_B uint16] tt (fun _ => S754_nan) 0 (tile_A uint16) 2 1).
  - reflexivity.
  - reflexivity.
  - reflexivity.
  - reflexivity.
  - repeat constructor; apply const_tile_loadable; vm_compute; reflexivity.
  - lia.
  - lia.
  - reflexivity.
  - reflexivity.
  - intros [|[|i]] t' Ht' Hne; [congruence | | discriminate Ht'].
    injection Ht' as <-. reflexivity.
  - split; [vm_compute; split; congruence | discriminate].
Defined.

(** ** Origin normalisation: further properties *)

Lemma same_up_to_position_refl (h : gmap nat Tile) : same_up_to_position h h.
Proof. intros r. destruct (h !! r); auto. Qed.

Lemma same_up_to_position_trans (h1 h2 h3 : gmap nat Tile) :
  same_up_to_position h1 h2 -> same_up_to_position h2 h3 -> same_up_to_position h1 h3.
Proof.
  intros H12 H23 r. specialize (H12 r). specialize (H23 r).
  destruct (h1 !! r), (h2 !! r), (h3 !! r); try tauto.
  destruct H12, H23. split; congruence.
Qed.

Lemma same_up_to_position_move (h : gmap nat Tile) (r : nat) (t : Tile)
    (p : TilePosition) :
  h !! r = Some t ->
  same_up_to_position h (<[r := mkTile (tile_shape t) p (pixels t)]> h).
Proof.
  intros Hr r'. destruct (Nat.eq_dec r' r) as [->|Hne].
  - rewrite Hr, lookup_insert_eq. now split.
  - rewrite lookup_insert_ne by congruence. destruct (h !! r'); auto.
Qed.

Lemma points_to_exists (h : gmap nat Tile) (refs : list nat) :
  Forall (fun r => is_Some (h !! r)) refs -> exists ts, points_to h refs ts.
Proof.
  induction 1 as [|r refs [t Ht] _ [ts IH]].
  - exists []. constructor.
  - exists (t :: ts). now constructor.
Qed.

Lemma shift_loop_frame (origin : list Z) (refs : list nat) :
  forall h : gmap nat Tile,
  Forall (fun r => is_Some (h !! r)) refs ->
  exists h',
    for_each refs (fun r =>
      do tile <- deref r;
      let shifted_pos := zip_with np_sub_int64 (get_position tile) origin in
      set_position r (mkTilePosition (nth 0 shifted_pos 0) (nth 1 shifted_pos 0)
                                     (nth 2 shifted_pos 0) (nth 3 shifted_pos 0)
                                     (nth 4 shifted_pos 0))) h
    = (Ok tt, h')
    /\ same_up_to_position h h'
    /\ forall r, r ∉ refs -> h' !! r = h !! r.
Proof.
  induction refs as [|r refs IH]; intros h Hall.
  - exists h. split; [reflexivity|]. split; [apply same_up_to_position_refl | reflexivity].
  - apply Forall_cons in Hall as [[t Hr] Hall].
    set (shifted_pos := zip_with np_sub_int64 (get_position t) origin).
    set (p := mkTilePosition (nth 0 shifted_pos 0) (nth 1 shifted_pos 0)
                             (nth 2 shifted_pos 0) (nth 3 shifted_pos 0)
                             (nth 4 shifted_pos 0)).
    set (h1 := <[r := mkTile (tile_shape t) p (pixels t)]> h).
    destruct (IH h1) as [h' [Hrun [Hsame Hframe]]].
    { eapply Forall_impl; [exact Hall|]. intros r' Hr'. cbn beta in *.
      unfold h1. apply lookup_insert_is_Some'. now right. }
    exists h'. split; [|split].
    + cbn [for_each].
      erewrite mbind_ok; [exact Hrun|].
      erewrite mbind_ok; [|apply deref_ok; exact Hr].
      unfold set_position. rewrite Hr. reflexivity.
    + eapply same_up_to_position_trans; [|exact Hsame].
      now apply same_up_to_position_move.
    + intros r' Hr'. rewrite Hframe.
      * unfold h1. apply lookup_insert_ne. intros ->. apply Hr'. now left.
      * intros Hin. apply Hr'. now right.
Qed.

(** X5: whatever the list holds, also one object several times,
    [shift_to_origin] on a non-empty list returns the list's own
    references; no object appears or disappears, every object keeps its
    shape and its pixels, and the objects the list does not hold are
    untouched. *)
Theorem shift_to_origin_keeps_objects (h : gmap nat Tile) (refs : list nat) :
  refs <> [] ->
  Forall (fun r => is_Some (h !! r)) refs ->
  exists h',
    shift_to_origin refs h = (Ok refs, h')
    /\ same_up_to_position h h'
    /\ forall r, r ∉ refs -> h' !! r = h !! r.
Proof.
  intros Hne Hall.
  destruct (points_to_exists h refs Hall) as [ts Hpt].
  destruct ts as [|t0 ts]; [inversion Hpt; subst; congruence|].
  set (origin := fold_left (zip_with Z.min) (map get_position ts) (get_position t0)).
  destruct (shift_loop_frame origin refs h Hall) as [h' [Hrun [Hsame Hframe]]].
  exists h'. split; [|split; assumption].
  unfold shift_to_origin.
  erewrite mbind_ok; [|apply read_positions; exact Hpt].
  cbn [map np_min_axis0]. fold origin.
  erewrite mbind_ok; [|reflexivity].
  unfold copy. erewrite mbind_ok; [|exact Hrun]. reflexivity.
Qed.

(** The list that holds the first of two objects twice. *)
Lemma shift_to_origin_keeps_objects_witness :
  exists h',
    shift_to_origin [0; 0; 1]%nat two_tile_store = (Ok [0; 0; 1]%nat, h')
    /\ same_up_to_position two_tile_store h'
    /\ forall r, r ∉ [0; 0; 1]%nat -> h' !! r = two_tile_store !! r.
Proof.
  apply (shift_to_origin_keeps_objects two_tile_store [0; 0; 1]%nat).
  - discriminate.
  - repeat constructor; eexists; reflexivity.
Defined.

Lemma shift_loop_fixed (origin : list Z) (h : gmap nat Tile) (refs : list nat)
    (ts : list Tile) :
  points_to h refs ts ->
  Forall (fun t => shifted_tile origin t = t) ts ->
  for_each refs (fun r =>
    do tile <- deref r;
    let shifted_pos := zip_with np_sub_int64 (get_position tile) origin in
    set_position r (mkTilePosition (nth 0 shifted_pos 0) (nth 1 shifted_pos 0)
                                   (nth 2 shifted_pos 0) (nth 3 shifted_pos 0)
                                   (nth 4 shifted_pos 0))) h
  = (Ok tt, h).
Proof.
  induction 1 as [|r t refs ts Hr _ IH]; intros Hfix; [reflexivity|].
  apply Forall_cons in Hfix as [Ht Hfix].
  cbn [for_each].
  erewrite mbind_ok; [exact (IH Hfix)|].
  erewrite mbind_ok; [|apply deref_ok; exact Hr].
  unfold set_position. rewrite Hr.
  change (mkTile (tile_shape t) _ (pixels t)) with (shifted_tile origin t).
  rewrite Ht, insert_id by exact Hr. reflexivity.
Qed.

Lemma shifted_tile_zero (t : Tile) :
  Forall (in_range int64) (get_position t) ->
  shifted_tile [0; 0; 0; 0; 0] t = t.
Proof.
  destruct t as [sh [a b c d e] px]. unfold get_position. cbn [position time channel z y x].
  intros Hr.
  do 5 (apply Forall_cons in Hr as [? Hr]).
  unfold shifted_tile, get_position. cbn [position time channel z y x zip_with nth
    tile_shape pixels].
  unfold np_sub_int64. rewrite !Z.sub_0_r, !wrap_in_range by assumption. reflexivity.
Qed.

(** X6: a list whose component-wise minimum position is already
    (0, 0, 0, 0, 0) is a fixed point.  [shift_to_origin] returns its
    references and leaves the store exactly as it was, also when the list
    holds an object several times. *)
Theorem shift_to_origin_fixed_point (h : gmap nat Tile) (refs : list nat)
    (ts : list Tile) :
  points_to h refs ts ->
  Forall (fun t => Forall (in_range int64) (get_position t)) ts ->
  np_min_axis0 (map get_position ts) = Ok [0; 0; 0; 0; 0] ->
  shift_to_origin refs h = (Ok refs, h).
Proof.
  intros Hpt Hrange Hmin.
  unfold shift_to_origin.
  erewrite mbind_ok; [|apply read_positions; exact Hpt].
  rewrite Hmin. erewrite mbind_ok; [|reflexivity].
  unfold copy. erewrite mbind_ok; [reflexivity|].
  apply (shift_loop_fixed _ h refs ts Hpt).
  eapply Forall_impl; [exact Hrange|]. intros t Ht. now apply shifted_tile_zero.
Qed.

(** Two objects at (0, 4) and (4, 0); the list holds the first twice. *)
Lemma shift_to_origin_fixed_point_witness :
  shift_to_origin [0; 1; 0]%nat origin_store = (Ok [0; 1; 0]%nat, origin_store).
Proof.
  apply (shift_to_origin_fixed_point origin_store [0; 1; 0]%nat
           [tile_at 0 4; tile_at 4 0; tile_at 0 4]).
  - repeat constructor.
  - repeat constructor; vm_compute; congruence.
  - reflexivity.
Defined.

Lemma small_sub_in_range (l o : list Z) :
  Forall (fun v => - 2 ^ 62 <= v < 2 ^ 62) l ->
  Forall (fun v => - 2 ^ 62 <= v < 2 ^ 62) o ->
  Forall (in_range int64) (zip_with Z.sub l o).
Proof.
  intros Hl. revert o. induction Hl as [|a l Ha _ IH]; intros o Ho.
  - constructor.
  - destruct Ho as [|b o Hb Ho]; cbn [zip_with]; constructor.
    + unfold in_range. cbn. lia.
    + now apply IH.
Qed.

(** X7: on pairwise distinct objects with coordinates far inside the int64
    range [shift_to_origin] is idempotent: a second run on the result
    returns the same references and changes nothing. *)
Theorem shift_to_origin_idempotent (h : gmap nat Tile) (refs : list nat)
    (ts : list Tile) :
  refs <> [] -> NoDup refs -> points_to h refs ts -> Forall small_position ts ->
  exists h',
    shift_to_origin refs h = (Ok refs, h')
    /\ shift_to_origin refs h' = (Ok refs, h').
Proof.
  intros Hne Hnd Hpt Hsmall.
  destruct (shift_to_origin_distinct_objects h refs ts Hne Hnd Hpt Hsmall)
    as (h' & origin & Hrun & Hmin & Hpt' & _ & Hkeep & Hzero & _).
  exists h'. split; [exact Hrun|].
  assert (Horigin : Forall (fun v => - 2 ^ 62 <= v < 2 ^ 62) origin).
  { destruct ts as [|t0 ts]; [discriminate Hmin|].
    cbn [map np_min_axis0] in Hmin. injection Hmin as <-.
    apply small_fold_min.
    - now inversion Hsmall.
    - apply Forall_map. now inversion Hsmall. }
  unfold shift_to_origin.
  erewrite mbind_ok; [|apply read_positions; exact Hpt'].
  rewrite Hzero. erewrite mbind_ok; [|reflexivity].
  unfold copy. erewrite mbind_ok; [reflexivity|].
  apply (shift_loop_fixed _ h' refs _ Hpt').
  apply Forall_map, Forall_forall. intros t Ht. cbn beta.
  apply shifted_tile_zero.
  rewrite Forall_forall in Hkeep, Hsmall.
  destruct (Hkeep t Ht) as (_ & _ & ->).
  apply small_sub_in_range; [now apply Hsmall | exact Horigin].
Qed.

(** Two distinct objects at (5, 7) and (9, 3). *)
Lemma shift_to_origin_idempotent_witness :
  exists h',
    shift_to_origin [0; 1]%nat two_tile_store = (Ok [0; 1]%nat, h')
    /\ shift_to_origin [0; 1]%nat h' = (Ok [0; 1]%nat, h').
Proof.
  apply (shift_to_origin_idempotent two_tile_store [0; 1]%nat [tile_at 5 7; tile_at 9 3]).
  - discriminate.
  - compute_done.
  - repeat constructor.
  - repeat constructor; vm_compute; congruence.
Defined.

Lemma fold_min_le_init (l : list Z) (a : Z) : fold_left Z.min l a <= a.
Proof.
  revert a. induction l as [|b l IH]; intros a; cbn [fold_left]; [lia|].
  specialize (IH (Z.min a b)). lia.
Qed.

Lemma fold_min_lower (l : list Z) (a v : Z) :
  v = a \/ In v l -> fold_left Z.min l a <= v.
Proof.
  revert a. induction l as [|b l IH]; intros a [->|Hin]; cbn [fold_left].
  - lia.
  - destruct Hin.
  - pose proof (fold_min_le_init l (Z.min a b)). lia.
  - destruct Hin as [->|Hin].
    + pose proof (fold_min_le_init l (Z.min a v)). lia.
    + apply IH. now right.
Qed.

Lemma positions_after_shift (h : gmap nat Tile) (refs : list nat) (ts : list Tile) :
  points_to h refs ts -> positions_of h refs = map (fun t => Some (get_position t)) ts.
Proof.
  induction 1 as [|r t refs ts Hr _ IH]; [reflexivity|].
  unfold positions_of in *. cbn [map]. now rewrite Hr, IH.
Qed.

(** X8: on a non-empty list of pairwise distinct objects with coordinates
    far inside the int64 range, [shift_to_origin] subtracts the
    component-wise minimum position from the position of every object of
    the list.  Afterwards no coordinate is negative and the component-wise
    minimum is (0, 0, 0, 0, 0). *)
Theorem shift_to_origin_normalises (h : gmap nat Tile) (refs : list nat)
    (ts : list Tile) :
  refs <> [] -> NoDup refs -> points_to h refs ts -> Forall small_position ts ->
  exists h' origin,
    shift_to_origin refs h = (Ok refs, h')
    /\ np_min_axis0 (map get_position ts) = Ok origin
    /\ positions_of h' refs
       = map (fun t => Some (zip_with Z.sub (get_position t) origin)) ts
    /\ Forall (fun t => Forall (fun v => 0 <= v)
                          (zip_with Z.sub (get_position t) origin)) ts
    /\ np_min_axis0 (map (fun t => zip_with Z.sub (get_position t) origin) ts)
       = Ok [0; 0; 0; 0; 0].
Proof.
  intros Hne Hnd Hpt Hsmall.
  destruct (shift_to_origin_distinct_objects h refs ts Hne Hnd Hpt Hsmall)
    as (h' & origin & Hrun & Hmin & Hpt' & _ & Hkeep & Hzero & _).
  assert (Hpos : forall t, t ∈ ts ->
            get_position (shifted_tile origin t) = zip_with Z.sub (get_position t) origin).
  { intros t Ht. rewrite Forall_forall in Hkeep. now destruct (Hkeep t Ht) as (_ & _ & ?). }
  exists h', origin. split; [exact Hrun|]. split; [exact Hmin|]. split; [|split].
  - rewrite (positions_after_shift h' refs _ Hpt'), map_map.
    apply map_ext_in. intros t Ht. f_equal. apply Hpos. now apply list_elem_of_In.
  - destruct ts as [|t0 ts]; [constructor|].
    cbn [map np_min_axis0] in Hmin. injection Hmin as Horigin.
    assert (Hrows : Forall (fun row => length row = 5%nat) (map get_position ts))
      by (apply Forall_map, Forall_forall; reflexivity).
    assert (Hlen : length origin = 5%nat) by (subst origin; now apply length_fold_min).
    apply Forall_forall. intros t Ht. apply List.Forall_nth. intros k d Hk.
    rewrite length_zip_with, Hlen in Hk. cbn in Hk.
    rewrite (nth_indep _ d 0) by (rewrite length_zip_with, Hlen; cbn; lia).
    rewrite nth_zip_with by (rewrite ?Hlen; cbn; lia).
    assert (nth k origin 0 <= nth k (get_position t) 0); [|lia].
    subst origin. rewrite (nth_fold_min 5) by (auto; lia).
    apply fold_min_lower. apply list_elem_of_In in Ht. destruct Ht as [->|Ht].
    + now left.
    + right. rewrite map_map. apply in_map_iff. now exists t.
  - rewrite <- Hzero, map_map. f_equal. apply map_ext_in.
    intros t Ht. symmetry. apply Hpos. now apply list_elem_of_In.
Qed.

(** Two distinct objects at (5, 7) and (9, 3). *)
Lemma shift_to_origin_normalises_witness :
  exists h' origin,
    shift_to_origin [0; 1]%nat two_tile_store = (Ok [0; 1]%nat, h')
    /\ np_min_axis0 (map get_position [tile_at 5 7; tile_at 9 3]) = Ok origin
    /\ positions_of h' [0; 1]%nat
       = map (fun t => Some (zip_with Z.sub (get_position t) origin))
             [tile_at 5 7; tile_at 9 3]
    /\ Forall (fun t => Forall (fun v => 0 <= v)
                          (zip_with Z.sub (get_position t) origin))
              [tile_at 5 7; tile_at 9 3]
    /\ np_min_axis0 (map (fun t => zip_with Z.sub (get_position t) origin)
                         [tile_at 5 7; tile_at 9 3])
       = Ok [0; 0; 0; 0; 0].
Proof.
  apply (shift_to_origin_normalises two_tile_store [0; 1]%nat [tile_at 5 7; tile_at 9 3]).
  - discriminate.
  - compute_done.
  - repeat constructor.
  - repeat constructor; vm_compute; congruence.
Defined.

(** X9: the empty list is the only list on which [shift_to_origin]
    fails.  On a list of tile objects it raises exactly when the list is
    empty; the exception is then the ValueError of [np.min], which has no
    minimum to return, and no object is changed. *)
Theorem shift_to_origin_raises_iff (h h' : gmap nat Tile) (refs : list nat) (e : exn) :
  Forall (fun r => is_Some (h !! r)) refs ->
  shift_to_origin refs h = (Raise e, h')
  <-> refs = [] /\ e = ValueError /\ h' = h.
Proof.
  intros Hall. split.
  - destruct refs as [|r refs].
    + cbn. intros Hr. injection Hr as <- <-. auto.
    + destruct (points_to_exists h (r :: refs) Hall) as [ts Hpt].
      destruct ts as [|t0 ts]; [inversion Hpt|].
      set (origin := fold_left (zip_with Z.min) (map get_position ts) (get_position t0)).
      destruct (shift_loop_frame origin (r :: refs) h Hall) as [h1 [Hrun _]].
      unfold shift_to_origin.
      erewrite mbind_ok; [|apply read_positions; exact Hpt].
      cbn [map np_min_axis0]. fold origin.
      erewrite mbind_ok; [|reflexivity].
      unfold copy. erewrite mbind_ok; [|exact Hrun]. discriminate.
  - intros (-> & -> & ->). reflexivity.
Qed.

(** The empty list over a store of two objects. *)
Lemma shift_to_origin_raises_iff_witness :
  shift_to_origin [] two_tile_store = (Raise ValueError, two_tile_store)
  <-> @nil nat = [] /\ ValueError = ValueError /\ two_tile_store = two_tile_store.
Proof.
  apply (shift_to_origin_raises_iff two_tile_store two_tile_store [] ValueError).
  constructor.
Defined.

(** ** The warp engine and a common shift of all positions *)

Lemma list_comprehension_ext {W A B} (f g : A -> M W B) (xs : list A) :
  (forall x, f x = g x) -> list_comprehension xs f = list_comprehension xs g.
Proof.
  intros Hfg. induction xs as [|x xs IH]; [reflexivity|].
  cbn [list_comprehension]. now rewrite Hfg, IH.
Qed.

Lemma list_comprehension_map {W A A' B} (g : A -> A') (f : A' -> M W B) (xs : list A) :
  list_comprehension (map g xs) f = list_comprehension xs (fun x => f (g x)).
Proof.
  induction xs as [|x xs IH]; [reflexivity|].
  cbn [map list_comprehension]. now rewrite IH.
Qed.

Lemma sub_int64_shifted (a b o : Z) :
  np_sub_int64 (a - o) (np_sub_int64 b o) = np_sub_int64 a b.
Proof.
  unfold np_sub_int64. apply wrap_congr.
  rewrite Zminus_mod, wrap_mod, <- Zminus_mod. f_equal. lia.
Qed.

(** X10: the warp engine sees positions only relative to the block.  When
    the minimum [origin] is subtracted from every tile position, as
    [shift_to_origin] does, and from the block's row and column origin,
    the engine hands the resampler the same arguments and returns the same
    tiles and masks, for any resampler. *)
Theorem translate_tiles_2d_common_shift {W : Type} (warp : warp_fn W)
    (bi bi' : block_info) (y0 y1 x0 x1 y1' x1' : Z) (origin : list Z)
    (yx_chunk_shape : list nat) (dt : int_dtype) (tiles : list Tile) (w : W) :
  length origin = 5%nat ->
  nth_error (array_location bi) 3 = Some (y0, y1) ->
  nth_error (array_location bi) 4 = Some (x0, x1) ->
  nth_error (array_location bi') 3 = Some (y0 - nth 3 origin 0, y1') ->
  nth_error (array_location bi') 4 = Some (x0 - nth 4 origin 0, x1') ->
  translate_tiles_2d warp bi' yx_chunk_shape dt (map (shifted_tile origin) tiles) w
  = translate_tiles_2d warp bi yx_chunk_shape dt tiles w.
Proof.
  intros Hlen E3 E4 E3' E4'.
  destruct origin as [|o0 [|o1 [|o2 [|oy [|ox [|]]]]]]; try discriminate Hlen.
  cbn [nth] in E3', E4'.
  unfold translate_tiles_2d. rewrite E3, E4, E3', E4'.
  rewrite list_comprehension_map.
  erewrite list_comprehension_ext; [reflexivity|].
  intros t. unfold get_yx_position, load_data, shifted_tile, get_position.
  cbn [position pixels y x zip_with nth fst snd].
  now rewrite !sub_int64_shifted.
Qed.

(** The end-to-end tiles in a frame whose origin lies at (-5, -3). *)
Lemma translate_tiles_2d_common_shift_witness :
  translate_tiles_2d skimage_warp block_4x6 [4; 6]%nat uint16
    (map (shifted_tile [0; 0; 0; 5; 3])
         (map (shifted_tile [0; 0; 0; -5; -3]) [tile_A uint16; tile_B uint16])) tt
  = translate_tiles_2d skimage_warp block_moved [4; 6]%nat uint16
      (map (shifted_tile [0; 0; 0; -5; -3]) [tile_A uint16; tile_B uint16]) tt.
Proof.
  apply (translate_tiles_2d_common_shift (W := unit) skimage_warp block_moved block_4x6
           5 9 3 9 4 6 [0; 0; 0; 5; 3]).
  - reflexivity.
  - reflexivity.
  - reflexivity.
  - reflexivity.
  - reflexivity.
Defined.

(** ** Mean fusion where the masks cover the pixel *)

Lemma tabulate_ext {A} (n : nat) (f g : nat -> A) :
  (forall k, (k < n)%nat -> f k = g k) -> tabulate n f = tabulate n g.
Proof.
  intros Hfg. unfold tabulate. apply map_ext_in.
  intros k Hk. apply in_seq in Hk. apply Hfg. lia.
Qed.

Lemma count_fold (m : nat -> bool) (l : list nat) (a : Z) :
  0 <= a -> a + Z.of_nat (length l) < 2 ^ 63 ->
  fold_left (fun acc i => wrap int64 (acc + Z.b2z (m i))) l a
  = a + Zsum (map (fun i => Z.b2z (m i)) l).
Proof.
  revert a. induction l as [|i l IH]; intros a Ha Hbound;
    cbn [fold_left map Zsum fold_right length] in *.
  - lia.
  - assert (Hb : 0 <= Z.b2z (m i) <= 1) by (destruct (m i); cbn; lia).
    rewrite wrap_in_range by (unfold in_range; cbn; lia).
    rewrite IH by lia. unfold Zsum. lia.
Qed.

Lemma count_nonneg (m : nat -> bool) (l : list nat) :
  0 <= Zsum (map (fun i => Z.b2z (m i)) l).
Proof.
  induction l as [|i l IH]; cbn [map Zsum fold_right]; [lia|].
  unfold Zsum in IH. destruct (m i); cbn; lia.
Qed.

Lemma count_positive (m : nat -> bool) (l : list nat) (i : nat) :
  In i l -> m i = true -> 0 < Zsum (map (fun i => Z.b2z (m i)) l).
Proof.
  intros Hin Hi. induction l as [|j l IH]; [destruct Hin|].
  cbn [map Zsum fold_right]. pose proof (count_nonneg m l) as Hnn. unfold Zsum in *.
  destruct Hin as [->|Hin].
  - rewrite Hi. cbn. lia.
  - specialize (IH Hin). destruct (m j); cbn; lia.
Qed.

(** X11: where the masks cover every pixel, mean fusion does not read the
    uninitialised buffer of [np.true_divide]: two runs with different
    buffer contents return the same image. *)
Theorem fuse_mean_covered_ignores_buffer (uninit uninit' : nat -> spec_float)
    (tiles : iarray) (masks : barray) :
  length (data masks) = (len0 masks * plane masks)%nat ->
  Z.of_nat (len0 masks) < 2 ^ 63 ->
  (forall q, (q < plane masks)%nat ->
     exists i, (i < len0 masks)%nat
               /\ nth (i * plane masks + q) (data masks) false = true) ->
  fuse_mean uninit tiles masks = fuse_mean uninit' tiles masks.
Proof.
  intros Hlen Hn Hcov. unfold fuse_mean.
  set (num := fun k => B2F (nth k (data masks) false) float64).
  set (den := fun q => Z2F float64 (nth q (data (np_sum_axis0_bool masks)) 0)).
  set (positive := fun q => 0 <? nth q (data (np_sum_axis0_bool masks)) 0).
  assert (Hw : true_divide_where float64 uninit (shape masks) (length (data masks))
                 num den positive
               = true_divide_where float64 uninit' (shape masks) (length (data masks))
                   num den positive); [|now rewrite Hw].
  unfold true_divide_where. f_equal. apply tabulate_ext. intros k Hk.
  change (numel (tl (shape masks))) with (plane masks).
  assert (Hp : (0 < plane masks)%nat) by (rewrite Hlen in Hk; nia).
  assert (Hq : (k mod plane masks < plane masks)%nat) by (apply Nat.mod_upper_bound; lia).
  destruct (Hcov _ Hq) as (i & Hi & Hm).
  assert (Hpos : positive (k mod plane masks)%nat = true); [|now rewrite Hpos].
  unfold positive, np_sum_axis0_bool. cbn [data].
  rewrite nth_tabulate by exact Hq.
  rewrite (count_fold (fun i => nth (i * plane masks + k mod plane masks)
                                    (data masks) false))
    by (rewrite ?length_seq; lia).
  apply Z.ltb_lt. rewrite Z.add_0_l.
  apply (count_positive _ _ i); [apply in_seq; lia | exact Hm].
Qed.

(** Two tiles side by side that cover both pixels between them. *)
Lemma fuse_mean_covered_ignores_buffer_witness :
  fuse_mean (fun _ => S754_nan) side_by_side side_by_side_masks
  = fuse_mean (fun _ => fone float64) side_by_side side_by_side_masks.
Proof.
  apply (fuse_mean_covered_ignores_buffer (fun _ => S754_nan) (fun _ => fone float64)
           side_by_side side_by_side_masks).
  - reflexivity.
  - vm_compute. reflexivity.
  - intros [|[|q]] Hq; [exists 0%nat | exists 1%nat | cbn in Hq; lia];
      (split; [cbn; lia | reflexivity]).
Defined.

(** ** Linear fusion of a block with a single tile *)

Lemma fuse_linear_single_pixel (distance_transform_edt : edt_fn)
    (uninit : nat -> spec_float) (tiles : iarray) (masks : barray) (q : nat) :
  len0 tiles = 1%nat -> (q < plane tiles)%nat -> (q < length (data tiles))%nat ->
  nth q (data (fuse_linear distance_transform_edt uninit tiles masks)) 0
  = wrap (dtype tiles) (nth q (data tiles) 0 * Z.b2z (nth q (data masks) false)).
Proof.
  intros Hone Hq Hlen. unfold fuse_linear. rewrite Hone. cbn [Nat.ltb Nat.leb].
  unfold astype_int, np_sum_axis0_int. cbn [data].
  change (plane (np_mul_int_bool tiles masks)) with (plane tiles).
  change (len0 (np_mul_int_bool tiles masks)) with (len0 tiles).
  change (dtype (np_mul_int_bool tiles masks)) with (dtype tiles).
  rewrite (nth_map_lt _ _ _ 0) by (rewrite length_tabulate; exact Hq).
  rewrite nth_tabulate by exact Hq.
  rewrite Hone. cbn [seq fold_left]. rewrite Nat.add_0_l, Z.add_0_l.
  rewrite wrap_accumulator by apply bits_sum_dtype.
  unfold np_mul_int_bool. cbn [data]. rewrite nth_tabulate by exact Hlen.
  apply wrap_idem.
Qed.

(** X12: a block whose list holds a single tile, assembled with linear
    fusion, is that tile pasted at its position: the tile's sample where
    the pixel lies inside the tile and 0 elsewhere.  Neither the distance
    transform nor the weight buffer plays a part. *)
Theorem assemble_chunk_linear_single_tile {W : Type} (bi : block_info)
    (tile_map : gmap (list nat) (list Tile)) (y0 y1 x0 x1 : Z) (H Wd : nat)
    (dt : int_dtype) (t : Tile) (w : W)
    (distance_transform_edt : edt_fn) (uninit : nat -> spec_float) :
  tile_map !! chunk_location bi = Some [t] ->
  last2 (chunk_shape bi) = [H; Wd] ->
  nth_error (array_location bi) 3 = Some (y0, y1) ->
  nth_error (array_location bi) 4 = Some (x0, x1) ->
  loadable t ->
  exists img,
    assemble_chunk bi tile_map (translate_tiles_2d skimage_warp)
      (pure_fuse (fuse_linear distance_transform_edt uninit)) dt w = (Ok img, w)
    /\ forall r c, (r < H)%nat -> (c < Wd)%nat ->
         nth (r * Wd + c) (data img) 0
         = if inside_tile y0 x0 t r c then wrap dt (source_sample y0 x0 t r c) else 0.
Proof.
  intros Hmap Hsh E3 E4 Hload.
  assert (Hne : [t] <> []) by discriminate.
  destruct (assemble_chunk_run bi tile_map y0 y1 x0 x1 H Wd dt [t] w
              Hmap Hne Hsh E3 E4 (Forall_cons_2 _ _ _ Hload (Forall_nil_2 _)))
    as [planes [Hrel Hrun]].
  destruct (stack_as_columns dt y0 x0 H Wd [t] planes Hrel Hne)
    as (Hshape & Hlt & Hlm & Hplane & Hlen0 & Hdt & Hpix).
  set (wt := np_array dt (map fst planes)) in *.
  set (wm := np_array tt (map snd planes)) in *.
  eexists. split; [apply Hrun|].
  intros r c Hr Hc. destruct (pixel_index H Wd r c Hr Hc) as [Hq _].
  destruct (Hpix 0%nat t r c eq_refl Hr Hc) as [Hs Hm].
  unfold sample_at, mask_at in Hs, Hm. rewrite Nat.mul_0_l, Nat.add_0_l in Hs, Hm.
  cbn [length] in Hlen0.
  cbn [newaxis3 astype_int data].
  rewrite (nth_map_lt _ _ _ 0).
  - rewrite fuse_linear_single_pixel; try (rewrite ?Hlt, ?Hlen0, ?Hplane; lia).
    rewrite Hs, Hm, Hdt, wrap_idem. unfold warped_sample.
    destruct (inside_tile y0 x0 t r c); cbn [Z.b2z].
    + rewrite Z.mul_1_r. apply wrap_idem.
    + apply wrap_zero.
  - unfold fuse_linear. rewrite Hlen0. cbn [Nat.ltb Nat.leb].
    unfold astype_int, np_sum_axis0_int. cbn [data].
    rewrite length_map, length_tabulate.
    change (plane (np_mul_int_bool wt wm)) with (plane wt). rewrite Hplane. exact Hq.
Qed.

(** The first end-to-end tile alone in the 4 x 6 block. *)
Lemma assemble_chunk_linear_single_tile_witness :
  exists img,
    assemble_chunk block_4x6 {[ [0; 0; 0; 0; 0]%nat := [tile_A uint16] ]}
      (translate_tiles_2d skimage_warp)
      (pure_fuse (fuse_linear edt_reference (fun _ => S754_nan))) uint16 tt = (Ok img, tt)
    /\ forall r c, (r < 4)%nat -> (c < 6)%nat ->
         nth (r * 6 + c) (data img) 0
         = if inside_tile 0 0 (tile_A uint16) r c
           then wrap uint16 (source_sample 0 0 (tile_A uint16) r c) else 0.
Proof.
  apply (assemble_chunk_linear_single_tile (W := unit) block_4x6
           {[ [0; 0; 0; 0; 0]%nat := [tile_A uint16] ]} 0 4 0 6 4 6 uint16
           (tile_A uint16) tt edt_reference (fun _ => S754_nan)).
  - reflexivity.
  - reflexivity.
  - reflexivity.
  - reflexivity.
  - apply const_tile_loadable. vm_compute. reflexivity.
Defined.

(** ** Failures *)

Lemma list_comprehension_raises {W A B} (f : A -> M W B) (xs ys : list A)
    (w w' : W) (e : exn) :
  list_comprehension xs f w = (Raise e, w') ->
  list_comprehension (xs ++ ys) f w = (Raise e, w').
Proof.
  revert w. induction xs as [|x xs IH]; intros w; [discriminate|].
  cbn [app list_comprehension]. unfold mbind at 1 3.
  destruct (f x w) as [[v|e1] w1]; [|trivial].
  unfold mbind. specialize (IH w1).
  destruct (list_comprehension xs f w1) as [[vs|e2] w2]; [discriminate|].
  intros Hr. rewrite (IH Hr). reflexivity.
Qed.

(** X13: the warp engine stops at the first tile that fails.  When it
    raises on a list of tiles it raises the same exception, in the same
    state, on every list that continues it: the later tiles are never
    loaded or resampled. *)
Theorem translate_tiles_2d_stops_at_failure {W : Type} (warp : warp_fn W)
    (bi : block_info) (yx_chunk_shape : list nat) (dt : int_dtype)
    (tiles more : list Tile) (w w' : W) (e : exn) :
  translate_tiles_2d warp bi yx_chunk_shape dt tiles w = (Raise e, w') ->
  translate_tiles_2d warp bi yx_chunk_shape dt (tiles ++ more) w = (Raise e, w').
Proof.
  unfold translate_tiles_2d.
  destruct (nth_error (array_location bi) 3) as [[y0 y1]|]; [|trivial].
  destruct (nth_error (array_location bi) 4) as [[x0 x1]|]; [|trivial].
  set (body := fun tile : Tile => _).
  unfold mbind.
  destruct (list_comprehension tiles body w) as [[vs|e1] w1] eqn:Hrun; [discriminate|].
  intros Hr. now rewrite (list_comprehension_raises body tiles more w w1 e1 Hrun).
Qed.

(** A tile without pixels, which the resampler rejects, before a good one. *)
Lemma translate_tiles_2d_stops_at_failure_witness :
  translate_tiles_2d skimage_warp block_4x6 [4; 6]%nat uint16
    ([empty_tile] ++ [tile_A uint16]) tt = (Raise ValueError, tt).
Proof.
  apply (translate_tiles_2d_stops_at_failure (W := unit) skimage_warp block_4x6
           [4; 6]%nat uint16 [empty_tile] [tile_A uint16] tt tt ValueError).
  reflexivity.
Defined.

(** X14: the block assembler raises in three cases and no other: the
    block's chunk location is not a key of the tile map (KeyError, and
    neither function is run); the list is not empty and the warp function
    raises (the fusion is not run); or the fusion function raises on what
    the warp function returned.  The exception and the state are those of
    the failing step. *)
Theorem assemble_chunk_raises_iff {W : Type} (bi : block_info)
    (tile_map : gmap (list nat) (list Tile))
    (warp_func : warp_func_t W) (fuse_func : fuse_func_t W) (dt : int_dtype)
    (w w' : W) (e : exn) :
  assemble_chunk bi tile_map warp_func fuse_func dt w = (Raise e, w')
  <-> (tile_map !! chunk_location bi = None /\ e = KeyError /\ w' = w)
      \/ exists tiles,
           tile_map !! chunk_location bi = Some tiles /\ tiles <> []
           /\ (warp_func bi (last2 (chunk_shape bi)) dt tiles w = (Raise e, w')
               \/ exists warped_tiles warped_masks w1,
                    warp_func bi (last2 (chunk_shape bi)) dt tiles w
                    = (Ok (warped_tiles, warped_masks), w1)
                    /\ fuse_func warped_tiles warped_masks w1 = (Raise e, w')).
Proof.
  unfold assemble_chunk.
  destruct (tile_map !! chunk_location bi) as [tiles|] eqn:Hmap.
  - destruct tiles as [|t tiles].
    + cbn. split; [discriminate|].
      intros [[Hnone _]|(tiles & Hsome & Hne & _)]; [discriminate | congruence].
    + cbn [length Nat.ltb Nat.leb]. unfold mbind.
      destruct (warp_func bi (last2 (chunk_shape bi)) dt (t :: tiles) w)
        as [[[wt wm]|e1] w1] eqn:Hwarp.
      * destruct (fuse_func wt wm w1) as [[f|e2] w2] eqn:Hfuse.
        -- split; [discriminate|].
           intros [[Hnone _]|(tiles' & Hsome & Hne & Hcase)]; [discriminate|].
           injection Hsome as <-. rewrite Hwarp in Hcase.
           destruct Hcase as [Hc|(a & m & w3 & Hc & Hf)]; [discriminate|].
           injection Hc as <- <- <-. congruence.
        -- split.
           ++ intros Hr. right. exists (t :: tiles). split; [reflexivity|].
              split; [discriminate|]. right. exists wt, wm, w1. split; [exact Hwarp|].
              rewrite Hfuse. exact Hr.
           ++ intros [[Hnone _]|(tiles' & Hsome & Hne & Hcase)]; [discriminate|].
              injection Hsome as <-. rewrite Hwarp in Hcase.
              destruct Hcase as [Hc|(a & m & w3 & Hc & Hf)]; [discriminate|].
              injection Hc as <- <- <-. exact (eq_trans (eq_sym Hfuse) Hf).
      * split.
        -- intros Hr. right. exists (t :: tiles). split; [reflexivity|].
           split; [discriminate|]. left. injection Hr as <- <-. exact Hwarp.
        -- intros [[Hnone _]|(tiles' & Hsome & Hne & Hcase)]; [discriminate|].
           injection Hsome as <-. rewrite Hwarp in Hcase.
           destruct Hcase as [Hc|(a & m & w3 & Hc & Hf)]; [|discriminate].
           injection Hc as <- <-. reflexivity.
  - split.
    + intros Hr. left. unfold mraise in Hr. injection Hr as <- <-. auto.
    + intros [(_ & -> & ->)|(tiles & Hsome & _)]; [reflexivity | discriminate].
Qed.

(** ** Halves that a float holds exactly *)

Lemma pos_shift_eq (m q j : positive) :
  Zpos m = Zpos q * 2 ^ Zpos j -> m = Pos.iter xO q j.
Proof. intros H. rewrite <- Zpos_shift in H. now injection H. Qed.

Lemma digits2_scaled (m p : positive) (k : Z) :
  0 <= k -> Zpos m = Zpos p * 2 ^ k ->
  Zpos (digits2_pos m) = Zpos (digits2_pos p) + k.
Proof.
  intros Hk Hm. destruct k as [|j|j]; try lia.
  - rewrite Z.pow_0_r, Z.mul_1_r in Hm. injection Hm as ->. lia.
  - apply pos_shift_eq in Hm. subst m. now rewrite digits2_shift, Pos2Z.inj_add.
Qed.

Section FloatScaled.
Variables prec emax : Z.
Hypothesis Hprec : 1 < prec.
Hypothesis Hemax : prec + prec <= emax.

Lemma fexp_mid (d : Z) : 0 <= d -> d <= prec + prec -> fexp prec emax d = d - prec.
Proof. intros H1 H2. unfold fexp, emin. lia. Qed.

(** A mantissa of [prec] digits followed by [j] zero bits rounds to
    itself, with the exponent moved by [j]. *)
Lemma binary_round_aux_shifted (s : bool) (m m0 : positive) (e j : Z) :
  Zpos (digits2_pos m0) = prec -> 0 <= j -> Zpos m = Zpos m0 * 2 ^ j ->
  - prec <= e + j <= prec ->
  binary_round_aux prec emax s (Zpos m) e loc_Exact = S754_finite s m0 (e + j).
Proof.
  intros Hm0 Hj Hm He.
  destruct j as [|j|j]; try lia.
  - rewrite Z.pow_0_r, Z.mul_1_r in Hm. injection Hm as ->. rewrite Z.add_0_r in *.
    apply binary_round_aux_fixed; [|lia].
    rewrite Hm0, fexp_mid by lia. lia.
  - apply pos_shift_eq in Hm. subst m.
    unfold binary_round_aux, shr_fexp, Zdigits2.
    rewrite digits2_shift, Pos2Z.inj_add, Hm0.
    rewrite fexp_mid by lia.
    replace (prec + Zpos j + e - prec - e) with (Zpos j) by lia.
    cbn [shr shr_record_of_loc]. rewrite shr_shifted.
    cbn [round_nearest_even shr_m loc_of_shr_record Zdigits2].
    rewrite Hm0, fexp_mid by lia.
    replace (prec + (e + Zpos j) - prec - (e + Zpos j)) with 0 by lia.
    cbn [shr shr_record_of_loc shr_m].
    destruct (Z.leb_spec (e + Zpos j) (emax - prec)); [reflexivity | lia].
Qed.

Lemma scaled_form_digits (s : bool) (p : positive) (e0 : Z) :
  Zpos (digits2_pos p) <= prec ->
  exists m e, scaled_form prec s p e0 = S754_finite s m (e + e0)
              /\ Zpos (digits2_pos m) = prec
              /\ e = Zpos (digits2_pos p) - prec
              /\ Zpos m = Zpos p * 2 ^ (- e).
Proof.
  intros Hd. unfold scaled_form, normal_form.
  destruct (Zpos (digits2_pos p) - prec) as [|k|k] eqn:E; try lia.
  - exists p, 0. repeat split; try lia.
  - exists (Pos.iter xO p k), (Zneg k). rewrite digits2_shift, Pos2Z.inj_add.
    repeat split; try lia. rewrite Zpos_shift. reflexivity.
Qed.

(** Rounding [p * 2 ^ k] at exponent [e] gives the float of value
    [p * 2 ^ (e + k)] when [p] has at most [prec] digits. *)
Lemma binary_round_scaled (s : bool) (m p : positive) (e k : Z) :
  Zpos (digits2_pos p) <= prec -> 0 <= k -> Zpos m = Zpos p * 2 ^ k ->
  0 <= Zpos (digits2_pos p) + e + k <= prec + prec ->
  binary_round prec emax s m e = scaled_form prec s p (e + k).
Proof.
  intros Hd Hk Hm Hv.
  destruct (scaled_form_digits s p (e + k) Hd) as (m0 & e0 & -> & Hm0 & He0 & Hval).
  pose proof (digits2_scaled m p k Hk Hm) as Hdm.
  unfold binary_round, shl_align.
  rewrite Hdm, fexp_mid by lia.
  destruct (Zpos (digits2_pos p) + k + e - prec - e) as [|j|j] eqn:E.
  - assert (Hm' : Zpos m = Zpos m0 * 2 ^ 0).
    { rewrite Hm, Hval, Z.pow_0_r, Z.mul_1_r. do 2 f_equal. lia. }
    rewrite (binary_round_aux_shifted s m m0 e 0 Hm0 (Z.le_refl 0) Hm') by lia.
    f_equal. lia.
  - assert (Hm' : Zpos m = Zpos m0 * 2 ^ Zpos j).
    { rewrite Hm, Hval, <- Z.mul_assoc, <- Z.pow_add_r by lia. do 2 f_equal. lia. }
    rewrite (binary_round_aux_shifted s m m0 e (Zpos j) Hm0 (Pos2Z.is_nonneg j) Hm') by lia.
    f_equal. lia.
  - assert (Hshift : Pos.iter xO m j = m0).
    { assert (Zpos (Pos.iter xO m j) = Zpos m0); [|congruence].
      rewrite Zpos_shift, Hm, Hval, <- Z.mul_assoc, <- Z.pow_add_r by lia.
      do 2 f_equal. lia. }
    rewrite Hshift.
    assert (Hm' : Zpos m0 = Zpos m0 * 2 ^ 0) by (rewrite Z.pow_0_r; lia).
    rewrite (binary_round_aux_shifted s m0 m0 _ 0 Hm0 (Z.le_refl 0) Hm') by lia.
    f_equal. lia.
Qed.
End FloatScaled.

Lemma scaled_form_finite (prec : Z) (s : bool) (p : positive) (e0 : Z) :
  exists m e, scaled_form prec s p e0 = S754_finite s m e.
Proof.
  unfold scaled_form, normal_form.
  destruct (Zpos (digits2_pos p) - prec); eexists _, _; reflexivity.
Qed.

Lemma half_of_cases (prec h : Z) :
  half_of prec h = fzero \/ exists s m e, half_of prec h = S754_finite s m e.
Proof.
  destruct h as [|p|p]; [now left | right | right]; cbn [half_of];
    [destruct (scaled_form_finite prec false p (-1)) as (m & e & ->)
    |destruct (scaled_form_finite prec true p (-1)) as (m & e & ->)];
    eexists _, _, _; reflexivity.
Qed.

Lemma half_of_signed (prec : Z) (s : bool) (p : positive) :
  half_of prec (cond_Zopp s (Zpos p)) = scaled_form prec s p (-1).
Proof. destruct s; reflexivity. Qed.

(** The product of an integer that float64 holds exactly with the weight
    0.5 is its half. *)
Lemma fmul_half (v : Z) :
  representable float64 v ->
  fmul float64 (Z2F float64 v) (S754_finite false 4503599627370496 (-53))
  = half_of 53 v.
Proof.
  unfold representable. intros Hv.
  destruct (Z_sign_cases v) as [->|[s [p [-> Habs]]]]; [reflexivity|].
  rewrite Habs in Hv. rewrite Z2F_normal_form by exact Hv.
  rewrite half_of_signed. change (fprec float64) with 53 in *.
  assert (Hd : Zpos (digits2_pos p) <= 53) by (apply representable_digits; [lia | exact Hv]).
  unfold scaled_form.
  destruct (normal_form_digits 53 ltac:(lia) s p Hd) as (m0 & e0 & -> & Hm0 & He0 & _).
  unfold fmul. cbn [SFmul fprec femax]. rewrite xorb_false_r.
  assert (Hm : Zpos (m0 * 4503599627370496) = Zpos m0 * 2 ^ 52)
    by (rewrite Pos2Z.inj_mul; reflexivity).
  rewrite (binary_round_aux_shifted 53 1024 ltac:(lia) ltac:(lia) s _ m0 (e0 + -53) 52
             Hm0 ltac:(lia) Hm) by lia.
  f_equal. lia.
Qed.

Lemma shl_align_value (m : positive) (e ez : Z) :
  ez <= e -> Zpos (fst (shl_align m e ez)) = Zpos m * 2 ^ (e - ez).
Proof.
  intros He. unfold shl_align.
  destruct (ez - e) as [|d|d] eqn:E; try lia; cbn [fst].
  - replace (e - ez) with 0 by lia. rewrite Z.pow_0_r. lia.
  - rewrite Zpos_shift. do 2 f_equal. lia.
Qed.

Lemma cond_Zopp_mul (s : bool) (a b : Z) : cond_Zopp s (a * b) = cond_Zopp s a * b.
Proof. destruct s; cbn [cond_Zopp]; lia. Qed.

Section Halves.
Variables prec emax : Z.
Hypothesis Hprec : 1 < prec.
Hypothesis Hemax : prec + prec <= emax.

(** The sum of two halves is the half of the sum when the sum still has at
    most [prec] digits. *)
Lemma SFadd_halves (a b : Z) :
  Z.abs a < 2 ^ prec -> Z.abs b < 2 ^ prec -> Z.abs (a + b) < 2 ^ prec ->
  SFadd prec emax (half_of prec a) (half_of prec b) = half_of prec (a + b).
Proof.
  intros Ha Hb Hab.
  destruct (Z_sign_cases a) as [->|(sa & pa & Ea & Habs_a)].
  { rewrite Z.add_0_l. cbn [half_of]. destruct (half_of_cases prec b) as [->|(s & m & e & ->)];
      reflexivity. }
  destruct (Z_sign_cases b) as [->|(sb & pb & Eb & Habs_b)].
  { rewrite Z.add_0_r. cbn [half_of].
    rewrite Ea, half_of_signed.
    destruct (scaled_form_finite prec sa pa (-1)) as (m & e & ->). reflexivity. }
  rewrite Habs_a in Ha. rewrite Habs_b in Hb.
  assert (Hda : Zpos (digits2_pos pa) <= prec) by (apply representable_digits; lia).
  assert (Hdb : Zpos (digits2_pos pb) <= prec) by (apply representable_digits; lia).
  rewrite Ea at 1. rewrite Eb at 1. rewrite !half_of_signed.
  destruct (scaled_form_digits prec sa pa (-1) Hda) as (ma & ea & -> & Hma & Hea & Hva).
  destruct (scaled_form_digits prec sb pb (-1) Hdb) as (mb & eb & -> & Hmb & Heb & Hvb).
  pose proof (Pos2Z.is_pos (digits2_pos pa)) as Hpa.
  pose proof (Pos2Z.is_pos (digits2_pos pb)) as Hpb.
  cbn [SFadd].
  set (ez := Z.min (ea + -1) (eb + -1)).
  rewrite !shl_align_value by (unfold ez; lia).
  set (K := - 1 - ez).
  assert (HK : 0 <= K) by (unfold K, ez; lia).
  assert (HM : cond_Zopp sa (Zpos ma * 2 ^ (ea + -1 - ez))
               + cond_Zopp sb (Zpos mb * 2 ^ (eb + -1 - ez))
               = (a + b) * 2 ^ K).
  { rewrite Hva, Hvb, <- !Z.mul_assoc, <- !Z.pow_add_r by (unfold ez; lia).
    replace (- ea + (ea + -1 - ez)) with K by (unfold K; lia).
    replace (- eb + (eb + -1 - ez)) with K by (unfold K; lia).
    rewrite !cond_Zopp_mul, <- Ea, <- Eb. lia. }
  rewrite HM.
  assert (Hpow : 0 < 2 ^ K) by (apply Z.pow_pos_nonneg; lia).
  destruct (Z_sign_cases (a + b)) as [->|(s & p & Es & Habs)].
  { reflexivity. }
  rewrite Habs in Hab.
  assert (Hd : Zpos (digits2_pos p) <= prec) by (apply representable_digits; lia).
  pose proof (Pos2Z.is_pos (digits2_pos p)) as Hp.
  rewrite Es, half_of_signed.
  destruct s; cbn [cond_Zopp].
  - destruct (Z.opp (Zpos p) * 2 ^ K) as [|m|m] eqn:E; try nia.
    cbn [binary_normalize].
    rewrite (binary_round_scaled prec emax Hprec Hemax true m p ez K) by (unfold K in *; nia || lia).
    f_equal. unfold K. lia.
  - destruct (Zpos p * 2 ^ K) as [|m|m] eqn:E; try nia.
    cbn [binary_normalize].
    rewrite (binary_round_scaled prec emax Hprec Hemax false m p ez K) by (unfold K in *; nia || lia).
    f_equal. unfold K. lia.
Qed.

Lemma SFadd_half_zero (h : Z) (z : spec_float) :
  is_zero z = true -> SFadd prec emax (half_of prec h) z = half_of prec h.
Proof.
  intros Hz. destruct z as [sz| | |]; try discriminate Hz.
  destruct (half_of_cases prec h) as [->|(s & m & e & ->)]; [|reflexivity].
  destruct sz; reflexivity.
Qed.

Lemma Ftrunc_half_of (h : Z) :
  Z.abs h < 2 ^ prec -> Ftrunc (half_of prec h) = Z.quot h 2.
Proof.
  intros Hh.
  destruct (Z_sign_cases h) as [->|(s & p & -> & Habs)]; [reflexivity|].
  rewrite Habs in Hh.
  assert (Hd : Zpos (digits2_pos p) <= prec) by (apply representable_digits; lia).
  pose proof (Pos2Z.is_pos (digits2_pos p)) as Hp.
  rewrite half_of_signed.
  destruct (scaled_form_digits prec s p (-1) Hd) as (m & e & -> & Hm & He & Hv).
  cbn [Ftrunc].
  destruct (e + -1) as [|k|k] eqn:E; try lia.
  assert (Hk : Zpos k = - e + 1) by lia.
  rewrite Hv, Hk, Z.pow_add_r, Z.pow_1_r by lia.
  rewrite (Z.mul_comm (2 ^ (- e)) 2).
  rewrite Z.div_mul_cancel_r by (try apply Z.pow_nonzero; lia).
  destruct s; cbn [cond_Zopp].
  - rewrite <- (Z.quot_div_nonneg (Zpos p) 2) by lia.
    change (Z.neg p) with (- Zpos p). now rewrite Z.quot_opp_l by lia.
  - now rewrite Z.quot_div_nonneg by lia.
Qed.
End Halves.

(** ** Pixels covered by exactly two tiles *)

Lemma fold_left_two_hot {A} (step : A -> nat -> A) (I0 I1 I2 : A -> Prop)
    (n a b : nat) (acc0 : A) :
  (a < b)%nat -> (b < n)%nat -> I0 acc0 ->
  (forall acc i, (i < n)%nat -> i <> a -> i <> b -> I0 acc -> I0 (step acc i)) ->
  (forall acc, I0 acc -> I1 (step acc a)) ->
  (forall acc i, (i < n)%nat -> i <> a -> i <> b -> I1 acc -> I1 (step acc i)) ->
  (forall acc, I1 acc -> I2 (step acc b)) ->
  (forall acc i, (i < n)%nat -> i <> a -> i <> b -> I2 acc -> I2 (step acc i)) ->
  I2 (fold_left step (seq 0 n) acc0).
Proof.
  intros Hab Hbn H0 S0 Sa S1 Sb S2.
  rewrite (seq_split_at b n Hbn), fold_left_app. cbn [fold_left].
  apply fold_left_preserves.
  - intros acc i Hi. apply in_seq in Hi. apply S2; lia.
  - apply Sb. apply (fold_left_one_hot step I0 I1 b a); auto.
    + intros acc i Hi Hne. apply S0; lia.
    + intros acc i Hi Hne. apply S1; lia.
Qed.

Lemma mean_in_range (dt : int_dtype) (u v : Z) :
  in_range dt u -> in_range dt v -> in_range dt (Z.quot (u + v) 2).
Proof.
  unfold in_range. intros Hu Hv.
  pose proof (Z.quot_rem' (u + v) 2) as Hqr.
  pose proof (Z.rem_bound_abs (u + v) 2 ltac:(lia)) as Hr.
  destruct (signed dt); lia.
Qed.

Section TwoCover.
Variables (tiles : iarray) (masks : barray) (q a b : nat).

Local Abbreviation N2 := (len0 tiles).
Local Abbreviation P2 := (plane tiles).
Local Abbreviation sample2 i := (sample_at tiles i q).
Local Abbreviation covered2 i := (mask_at tiles masks i q).

Hypothesis Hshape : shape masks = shape tiles.
Hypothesis Htiles : length (data tiles) = (N2 * P2)%nat.
Hypothesis Hmasks : length (data masks) = (N2 * P2)%nat.
Hypothesis Hq : (q < P2)%nat.
Hypothesis Hab : (a < b)%nat.
Hypothesis Hb : (b < N2)%nat.
Hypothesis Hcover_a : covered2 a = true.
Hypothesis Hcover_b : covered2 b = true.
Hypothesis Hothers :
  forall i, (i < N2)%nat -> i <> a -> i <> b -> covered2 i = false.
Hypothesis Hrep : forall i, (i < N2)%nat -> representable float64 (sample2 i).
Hypothesis Hsum : Z.abs (sample2 a + sample2 b) < 2 ^ 53.
Hypothesis Hrange : in_range (dtype tiles) (Z.quot (sample2 a + sample2 b) 2).

Lemma mask_count_two :
  nth q (data (np_sum_axis0_bool masks)) 0 = 2.
Proof.
  unfold np_sum_axis0_bool. cbn [data].
  rewrite (plane_masks tiles masks Hshape), (len0_masks tiles masks Hshape).
  rewrite nth_tabulate by exact Hq.
  apply (fold_left_two_hot _ (fun acc => acc = 0) (fun acc => acc = 1)
           (fun acc => acc = 2) N2 a b); auto.
  - intros acc i Hi Ha Hbi ->. fold (covered2 i). now rewrite Hothers.
  - intros acc ->. fold (covered2 a). now rewrite Hcover_a.
  - intros acc i Hi Ha Hbi ->. fold (covered2 i). now rewrite Hothers.
  - intros acc ->. fold (covered2 b). now rewrite Hcover_b.
  - intros acc i Hi Ha Hbi ->. fold (covered2 i). now rewrite Hothers.
Qed.

Lemma fuse_mean_two_cover (uninit : nat -> spec_float) :
  nth q (data (fuse_mean uninit tiles masks)) 0
  = Z.quot (sample2 a + sample2 b) 2.
Proof.
  unfold fuse_mean, astype_F2I. cbn [data].
  set (weights := sanitize float64 _).
  set (prod := np_mul_int_float tiles weights).
  unfold np_sum_axis0_float. cbn [data].
  change (plane prod) with P2. change (len0 prod) with N2.
  change (dtype prod) with float64.
  rewrite (nth_map_lt _ _ _ fzero) by (rewrite length_tabulate; exact Hq).
  rewrite nth_tabulate by exact Hq.
  rewrite (fold_left_ext_in _
             (fun acc i => fadd float64 acc
                (fmul float64 (Z2F float64 (sample2 i))
                   (if covered2 i then S754_finite false 4503599627370496 (-53)
                    else fzero)))).
  - unfold F2I.
    rewrite (fold_left_two_hot _ (fun acc => acc = fzero)
               (fun acc => acc = half_of 53 (sample2 a))
               (fun acc => acc = half_of 53 (sample2 a + sample2 b)) N2 a b fzero
               Hab Hb eq_refl).
    + rewrite (Ftrunc_half_of 53 ltac:(lia)) by exact Hsum.
      now apply wrap_in_range.
    + intros acc i Hi Ha Hbi ->. rewrite (Hothers i Hi Ha Hbi).
      apply (SFadd_half_zero 53 1024 0).
      apply fmul_zero_r; [apply Z2F_finite_or_zero; auto | reflexivity].
    + intros acc ->. rewrite Hcover_a, fmul_half by (apply Hrep; lia).
      apply (SFadd_halves 53 1024 ltac:(lia) ltac:(lia) 0 (sample2 a));
        [cbn; lia | apply Hrep; lia | apply Hrep; lia].
    + intros acc i Hi Ha Hbi ->. rewrite (Hothers i Hi Ha Hbi).
      apply (SFadd_half_zero 53 1024).
      apply fmul_zero_r; [apply Z2F_finite_or_zero; auto | reflexivity].
    + intros acc ->. rewrite Hcover_b, fmul_half by (apply Hrep; lia).
      apply (SFadd_halves 53 1024 ltac:(lia) ltac:(lia));
        [apply Hrep; lia | apply Hrep; lia | exact Hsum].
    + intros acc i Hi Ha Hbi ->. rewrite (Hothers i Hi Ha Hbi).
      apply (SFadd_half_zero 53 1024).
      apply fmul_zero_r; [apply Z2F_finite_or_zero; auto | reflexivity].
  - intros i acc Hi. apply in_seq in Hi.
    destruct (stack_index N2 P2 i q) as [Hk Hmod]; [lia | exact Hq |].
    f_equal. subst prod. unfold np_mul_int_float. cbn [data dtype].
    rewrite nth_tabulate by (rewrite Htiles; exact Hk).
    change (result_type (dtype tiles) (dtype weights)) with float64.
    fold (sample2 i). f_equal.
    subst weights. unfold sanitize, true_divide_where. cbn [data dtype].
    rewrite (nth_map_lt _ _ _ fzero) by (rewrite length_tabulate, Hmasks; exact Hk).
    rewrite nth_tabulate by (rewrite Hmasks; exact Hk).
    change (numel (tl (shape masks))) with (plane masks).
    rewrite (plane_masks tiles masks Hshape), Hmod, mask_count_two. fold (covered2 i).
    destruct (covered2 i); reflexivity.
Qed.
End TwoCover.

Lemma exact_sum_small (dt : int_dtype) (u v : Z) :
  exact_in_product dt u -> exact_in_product dt v ->
  (bits dt = 64 -> Z.abs (u + v) < 2 ^ 53) ->
  Z.abs (u + v) < 2 ^ 53.
Proof.
  unfold exact_in_product, in_range.
  destruct dt; cbn; intros [Hu _] [Hv _] H64; try lia; apply H64; reflexivity.
Qed.

Lemma fuse_mean_two_cover_unordered (uninit : nat -> spec_float)
    (tiles : iarray) (masks : barray) (q a b : nat) :
  shape masks = shape tiles ->
  length (data tiles) = (len0 tiles * plane tiles)%nat ->
  length (data masks) = (len0 tiles * plane tiles)%nat ->
  (q < plane tiles)%nat ->
  (a < len0 tiles)%nat -> (b < len0 tiles)%nat -> a <> b ->
  mask_at tiles masks a q = true -> mask_at tiles masks b q = true ->
  (forall i, (i < len0 tiles)%nat -> i <> a -> i <> b -> mask_at tiles masks i q = false) ->
  (forall i, (i < len0 tiles)%nat -> representable float64 (sample_at tiles i q)) ->
  Z.abs (sample_at tiles a q + sample_at tiles b q) < 2 ^ 53 ->
  in_range (dtype tiles) (Z.quot (sample_at tiles a q + sample_at tiles b q) 2) ->
  nth q (data (fuse_mean uninit tiles masks)) 0
  = Z.quot (sample_at tiles a q + sample_at tiles b q) 2.
Proof.
  intros Hshape Htiles Hmasks Hq Ha Hb Hne Hca Hcb Hothers Hrep Hsum Hrange.
  destruct (Nat.lt_total a b) as [Hlt|[Heq|Hgt]]; [|congruence|].
  - now apply fuse_mean_two_cover.
  - rewrite (Z.add_comm (sample_at tiles a q)) in *.
    apply fuse_mean_two_cover; auto.
Qed.

(** X15: at a pixel covered by the masks of exactly two tiles, mean fusion
    returns the mean of the two samples truncated toward zero, whatever
    the uninitialised weight buffer holds, provided the float product
    holds the samples at the pixel exactly and, for a 64-bit dtype, their
    sum stays below 2^53 in magnitude. *)
Theorem fuse_mean_two_covering_tiles (uninit : nat -> spec_float)
    (tiles : iarray) (masks : barray) (q a b : nat) :
  well_shaped tiles masks ->
  (q < plane tiles)%nat ->
  covered_by_two tiles masks q a b ->
  (forall i, (i < len0 tiles)%nat -> exact_in_product (dtype tiles) (sample_at tiles i q)) ->
  (bits (dtype tiles) = 64 -> Z.abs (sample_at tiles a q + sample_at tiles b q) < 2 ^ 53) ->
  nth q (data (fuse_mean uninit tiles masks)) 0
  = Z.quot (sample_at tiles a q + sample_at tiles b q) 2.
Proof.
  intros [Hshape [Htiles Hmasks]] Hq (Ha & Hb & Hne & Hca & Hcb & Hothers) Hexact H64.
  apply fuse_mean_two_cover_unordered; try assumption.
  - intros i Hi. now apply (exact_in_product_representable (dtype tiles)), Hexact.
  - apply (exact_sum_small (dtype tiles)); auto.
  - apply mean_in_range; apply Hexact; assumption.
Qed.

(** Three tiles; the first and the last cover the pixel and hold 10 and
    21: the result is 15. *)
Lemma fuse_mean_two_covering_tiles_witness :
  nth 0 (data (fuse_mean (fun _ => S754_nan) overlap_tiles overlap_masks)) 0
  = Z.quot (sample_at overlap_tiles 0 0 + sample_at overlap_tiles 2 0) 2.
Proof.
  apply (fuse_mean_two_covering_tiles (fun _ => S754_nan) overlap_tiles overlap_masks
           0 0 2).
  - repeat split.
  - cbn. lia.
  - repeat split; try (cbn; lia).
    intros [|[|[|i]]] Hi H0 H2; [congruence | reflexivity | congruence | cbn in Hi; lia].
  - intros [|[|[|i]]] Hi; [| | |cbn in Hi; lia];
      (split; [vm_compute; split; congruence | discriminate]).
  - discriminate.
Defined.

(** X16: assembling with mean fusion averages where two tiles overlap.  A
    pixel of the block that lies inside exactly two tiles of the block's
    list gets the mean of the two tiles' samples at the places the pixel
    falls on, truncated toward zero, provided the samples are values of the
    output dtype (and, for a 64-bit dtype, they and their sum are below
    2^53 in magnitude). *)
Theorem assemble_chunk_mean_averages_overlap {W : Type} (bi : block_info)
    (tile_map : gmap (list nat) (list Tile)) (y0 y1 x0 x1 : Z) (H Wd : nat)
    (dt : int_dtype) (tiles : list Tile) (w : W)
    (uninit : nat -> spec_float) (ka kb : nat) (ta tb : Tile) (r c : nat) :
  tile_map !! chunk_location bi = Some tiles ->
  last2 (chunk_shape bi) = [H; Wd] ->
  nth_error (array_location bi) 3 = Some (y0, y1) ->
  nth_error (array_location bi) 4 = Some (x0, x1) ->
  Forall loadable tiles ->
  (r < H)%nat -> (c < Wd)%nat ->
  tiles !! ka = Some ta -> tiles !! kb = Some tb -> ka <> kb ->
  inside_tile y0 x0 ta r c = true ->
  inside_tile y0 x0 tb r c = true ->
  (forall i t, tiles !! i = Some t -> i <> ka -> i <> kb -> inside_tile y0 x0 t r c = false) ->
  exact_in_product dt (source_sample y0 x0 ta r c) ->
  exact_in_product dt (source_sample y0 x0 tb r c) ->
  (bits dt = 64 ->
   Z.abs (source_sample y0 x0 ta r c + source_sample y0 x0 tb r c) < 2 ^ 53) ->
  exists img,
    assemble_chunk bi tile_map (translate_tiles_2d skimage_warp)
      (pure_fuse (fuse_mean uninit)) dt w = (Ok img, w)
    /\ nth (r * Wd + c) (data img) 0
       = Z.quot (source_sample y0 x0 ta r c + source_sample y0 x0 tb r c) 2.
Proof.
  intros Hmap Hsh E3 E4 Hload Hr Hc Hka Hkb Hne_k Hina Hinb Hothers Hxa Hxb H64.
  assert (Hne : tiles <> []) by (intros ->; discriminate Hka).
  destruct (assemble_chunk_run bi tile_map y0 y1 x0 x1 H Wd dt tiles w
              Hmap Hne Hsh E3 E4 Hload) as [planes [Hrel Hrun]].
  destruct (stack_as_columns dt y0 x0 H Wd tiles planes Hrel Hne)
    as (Hshape & Hlt & Hlm & Hplane & Hlen0 & Hdt & Hpix).
  set (wt := np_array dt (map fst planes)) in *.
  set (wm := np_array tt (map snd planes)) in *.
  destruct (pixel_index H Wd r c Hr Hc) as [Hq _].
  assert (Hq' : (r * Wd + c < plane wt)%nat) by (rewrite Hplane; exact Hq).
  destruct (Hpix ka ta r c Hka Hr Hc) as [Hsa Hma].
  destruct (Hpix kb tb r c Hkb Hr Hc) as [Hsb Hmb].
  assert (Hsample_a : sample_at wt ka (r * Wd + c) = source_sample y0 x0 ta r c).
  { rewrite Hsa. unfold warped_sample. rewrite Hina. apply wrap_in_range, Hxa. }
  assert (Hsample_b : sample_at wt kb (r * Wd + c) = source_sample y0 x0 tb r c).
  { rewrite Hsb. unfold warped_sample. rewrite Hinb. apply wrap_in_range, Hxb. }
  assert (Hmean : in_range dt (Z.quot (source_sample y0 x0 ta r c
                                        + source_sample y0 x0 tb r c) 2))
    by (apply mean_in_range; [apply Hxa | apply Hxb]).
  eexists. split; [apply Hrun|].
  cbn [newaxis3 astype_int data].
  rewrite (nth_map_lt _ _ _ 0).
  - rewrite (fuse_mean_two_cover_unordered uninit wt wm (r * Wd + c)%nat ka kb);
      try assumption.
    + rewrite Hsample_a, Hsample_b. now apply wrap_in_range.
    + rewrite Hlen0. eapply lookup_lt_Some; exact Hka.
    + rewrite Hlen0. eapply lookup_lt_Some; exact Hkb.
    + now rewrite Hma.
    + now rewrite Hmb.
    + intros i Hi Hia Hib. rewrite Hlen0 in Hi.
      destruct (lookup_lt_is_Some_2 tiles i Hi) as [t' Ht'].
      destruct (Hpix i t' r c Ht' Hr Hc) as [_ Hm']. rewrite Hm'.
      now apply (Hothers i t').
    + intros i Hi. destruct (Nat.eq_dec i ka) as [->|Hia].
      { rewrite Hsample_a. now apply (exact_in_product_representable dt). }
      destruct (Nat.eq_dec i kb) as [->|Hib].
      { rewrite Hsample_b. now apply (exact_in_product_representable dt). }
      rewrite Hlen0 in Hi.
      destruct (lookup_lt_is_Some_2 tiles i Hi) as [t' Ht'].
      destruct (Hpix i t' r c Ht' Hr Hc) as [Hs' _]. rewrite Hs'.
      unfold warped_sample. rewrite (Hothers i t' Ht' Hia Hib).
      unfold representable. cbn. lia.
    + rewrite Hsample_a, Hsample_b. now apply (exact_sum_small dt).
    + rewrite Hsample_a, Hsample_b, Hdt. exact Hmean.
  - unfold fuse_mean, astype_F2I, np_sum_axis0_float. cbn [data].
    rewrite length_map, length_tabulate. exact Hq'.
Qed.

(** Column 2 of the end-to-end block lies in both tiles, which hold 10 and
    20: the pixel is 15. *)
Lemma assemble_chunk_mean_averages_overlap_witness :
  exists img,
    assemble_chunk block_4x6 (tile_map_AB uint16) (translate_tiles_2d skimage_warp)
      (pure_fuse (fuse_mean (fun _ => S754_nan))) uint16 tt = (Ok img, tt)
    /\ nth (1 * 6 + 2) (data img) 0
       = Z.quot (source_sample 0 0 (tile_A uint16) 1 2
                 + source_sample 0 0 (tile_B uint16) 1 2) 2.
Proof.
  apply (assemble_chunk_mean_averages_overlap (W := unit) block_4x6
           (tile_map_AB uint16) 0 4 0 6 4 6 uint16
           [tile_A uint16; tile_B uint16] tt (fun _ => S754_nan)
           0 1 (tile_A uint16) (tile_B uint16) 1 2).
  - reflexivity.
  - reflexivity.
  - reflexivity.
  - reflexivity.
  - repeat constructor; apply const_tile_loadable; vm_compute; reflexivity.
  - lia.
  - lia.
  - reflexivity.
  - reflexivity.
  - discriminate.
  - reflexivity.
  - reflexivity.
  - intros [|[|i]] t' Ht' Ha Hb; [congruence | congruence | discriminate Ht'].
  - split; [vm_compute; split; congruence | discriminate].
  - split; [vm_compute; split; congruence | discriminate].
  - discriminate.
Defined.

(** ** Three identical tiles *)

(** X17: mean fusion truncates the float sum of the weighted samples, so
    it does not always return the common value of identical tiles.  Where
    three tiles all cover a pixel and all hold 7 there, the weights are
    the float64 1/3, the sum is a little less than 7 and the result is 6,
    for every integer dtype and whatever the weight buffer holds. *)
Theorem fuse_mean_three_sevens (uninit : nat -> spec_float)
    (tiles : iarray) (masks : barray) (q : nat) :
  well_shaped tiles masks ->
  len0 tiles = 3%nat ->
  (q < plane tiles)%nat ->
  (forall i, (i < 3)%nat -> mask_at tiles masks i q = true) ->
  (forall i, (i < 3)%nat -> sample_at tiles i q = 7) ->
  nth q (data (fuse_mean uninit tiles masks)) 0 = 6.
Proof.
  intros [Hshape [Htiles Hmasks]] Hthree Hq Hcover Hseven.
  assert (Hcount : nth q (data (np_sum_axis0_bool masks)) 0 = 3).
  { unfold np_sum_axis0_bool. cbn [data].
    rewrite (plane_masks tiles masks Hshape), (len0_masks tiles masks Hshape), Hthree.
    rewrite nth_tabulate by exact Hq.
    cbn [seq fold_left]. fold (mask_at tiles masks 0 q) (mask_at tiles masks 1 q)
      (mask_at tiles masks 2 q).
    rewrite !Hcover by lia. reflexivity. }
  unfold fuse_mean, astype_F2I. cbn [data].
  set (weights := sanitize float64 _).
  set (prod := np_mul_int_float tiles weights).
  unfold np_sum_axis0_float. cbn [data].
  change (plane prod) with (plane tiles). change (len0 prod) with (len0 tiles).
  change (dtype prod) with float64.
  rewrite (nth_map_lt _ _ _ fzero) by (rewrite length_tabulate; exact Hq).
  rewrite nth_tabulate by exact Hq.
  rewrite (fold_left_ext_in _
             (fun acc i => fadd float64 acc
                (fmul float64 (Z2F float64 7)
                   (F2F float64 (clip01 float64 (nan_to_num float64
                      (fdiv float64 (fone float64) (Z2F float64 3)))))))).
  - rewrite Hthree. unfold F2I.
    replace (Ftrunc _) with 6 by (vm_compute; reflexivity).
    apply wrap_in_range. destruct (dtype tiles); vm_compute; split; congruence.
  - intros i acc Hi. apply in_seq in Hi. rewrite Hthree in Hi.
    destruct (stack_index (len0 tiles) (plane tiles) i q) as [Hk Hmod];
      [lia | exact Hq |].
    f_equal. subst prod. unfold np_mul_int_float. cbn [data dtype].
    rewrite nth_tabulate by (rewrite Htiles; exact Hk).
    change (result_type (dtype tiles) (dtype weights)) with float64.
    fold (sample_at tiles i q). rewrite Hseven by lia. f_equal. f_equal.
    subst weights. unfold sanitize, true_divide_where. cbn [data dtype].
    rewrite (nth_map_lt _ _ _ fzero) by (rewrite length_tabulate, Hmasks; exact Hk).
    rewrite nth_tabulate by (rewrite Hmasks; exact Hk).
    change (numel (tl (shape masks))) with (plane masks).
    rewrite (plane_masks tiles masks Hshape), Hmod, Hcount.
    fold (mask_at tiles masks i q). rewrite Hcover by lia. reflexivity.
Qed.

(** Three one-pixel tiles holding 7. *)
Lemma fuse_mean_three_sevens_witness :
  nth 0 (data (fuse_mean (fun _ => fzero) three_sevens three_sevens_masks)) 0 = 6.
Proof.
  apply (fuse_mean_three_sevens (fun _ => fzero) three_sevens three_sevens_masks 0).
  - repeat split.
  - reflexivity.
  - cbn. lia.
  - intros [|[|[|i]]] Hi; [reflexivity | reflexivity | reflexivity | lia].
  - intros [|[|[|i]]] Hi; [reflexivity | reflexivity | reflexivity | lia].
Defined.

(** ** Sum fusion and the order of the tiles *)

Lemma assemble_chunk_sum_pixels {W : Type} (bi : block_info)
    (tile_map : gmap (list nat) (list Tile)) (y0 y1 x0 x1 : Z) (H Wd : nat)
    (dt : int_dtype) (tiles : list Tile) (w : W) :
  tile_map !! chunk_location bi = Some tiles ->
  tiles <> [] ->
  last2 (chunk_shape bi) = [H; Wd] ->
  nth_error (array_location bi) 3 = Some (y0, y1) ->
  nth_error (array_location bi) 4 = Some (x0, x1) ->
  Forall loadable tiles ->
  exists img,
    assemble_chunk bi tile_map (translate_tiles_2d skimage_warp)
      (pure_fuse fuse_sum) dt w = (Ok img, w)
    /\ shape img = [1; 1; 1; H; Wd]%nat /\ dtype img = dt
    /\ length (data img) = (H * Wd)%nat
    /\ forall r c, (r < H)%nat -> (c < Wd)%nat ->
         nth (r * Wd + c) (data img) 0
         = wrap dt (Zsum (map (fun t => warped_sample dt y0 x0 t r c) tiles)).
Proof.
  intros Hmap Hne Hsh E3 E4 Hload.
  destruct (assemble_chunk_run bi tile_map y0 y1 x0 x1 H Wd dt tiles w
              Hmap Hne Hsh E3 E4 Hload) as [planes [Hrel Hrun]].
  destruct (stacked_planes dt y0 x0 H Wd tiles planes Hrel Hne)
    as (Hwt & Hwm & Hdt & _ & _ & Hpix).
  set (wt := np_array dt (map fst planes)) in *.
  set (wm := np_array tt (map snd planes)) in *.
  destruct (plane_of_stack wt _ _ _ Hwt) as [Hplane Hlen0].
  eexists. split; [apply Hrun|]. split; [|split; [reflexivity|split]].
  - cbn [newaxis3 astype_int shape fuse_sum np_sum_axis0_int]. now rewrite Hwt.
  - cbn [newaxis3 astype_int data]. unfold fuse_sum, astype_int, np_sum_axis0_int.
    cbn [data]. now rewrite !length_map, length_tabulate, Hplane.
  - intros r c Hr Hc. destruct (pixel_index H Wd r c Hr Hc) as [Hk _].
    cbn [newaxis3 astype_int data].
    rewrite (nth_map_lt _ _ _ 0).
    + rewrite fuse_sum_pixel by (rewrite Hplane; exact Hk).
      rewrite Hdt, wrap_idem. do 2 f_equal.
      unfold column. rewrite Hlen0, Hplane. apply map_seq_lookup.
      intros i t Hi. now apply (Hpix i t r c Hi Hr Hc).
    + unfold fuse_sum, astype_int, np_sum_axis0_int. cbn [data].
      rewrite length_map, length_tabulate, Hplane. exact Hk.
Qed.

Lemma Zsum_permutation (l l' : list Z) : Permutation l l' -> Zsum l = Zsum l'.
Proof.
  unfold Zsum. induction 1; cbn [fold_right]; lia.
Qed.

Lemma pixel_of_index (H Wd q : nat) :
  (q < H * Wd)%nat ->
  exists r c, (r < H)%nat /\ (c < Wd)%nat /\ q = (r * Wd + c)%nat.
Proof.
  intros Hq. assert (0 < Wd)%nat by nia.
  exists (q / Wd)%nat, (q mod Wd)%nat. split; [|split].
  - apply Nat.Div0.div_lt_upper_bound. lia.
  - apply Nat.mod_upper_bound. lia.
  - rewrite (Nat.div_mod_eq q Wd) at 1. lia.
Qed.

(** X18: under sum fusion the order of the tiles in the block's list does
    not matter: two tile maps that list the same tiles for the block in
    different orders give the same block. *)
Theorem assemble_chunk_sum_order_free {W : Type} (bi : block_info)
    (tile_map tile_map' : gmap (list nat) (list Tile)) (y0 y1 x0 x1 : Z)
    (H Wd : nat) (dt : int_dtype) (tiles tiles' : list Tile) (w : W) :
  tile_map !! chunk_location bi = Some tiles ->
  tile_map' !! chunk_location bi = Some tiles' ->
  Permutation tiles tiles' ->
  tiles <> [] ->
  last2 (chunk_shape bi) = [H; Wd] ->
  nth_error (array_location bi) 3 = Some (y0, y1) ->
  nth_error (array_location bi) 4 = Some (x0, x1) ->
  Forall loadable tiles ->
  exists img,
    assemble_chunk bi tile_map (translate_tiles_2d skimage_warp)
      (pure_fuse fuse_sum) dt w = (Ok img, w)
    /\ assemble_chunk bi tile_map' (translate_tiles_2d skimage_warp)
         (pure_fuse fuse_sum) dt w = (Ok img, w).
Proof.
  intros Hmap Hmap' Hperm Hne Hsh E3 E4 Hload.
  assert (Hne' : tiles' <> []).
  { intros ->. apply Permutation_nil_r in Hperm. contradiction. }
  assert (Hload' : Forall loadable tiles') by now rewrite <- Hperm.
  destruct (assemble_chunk_sum_pixels bi tile_map y0 y1 x0 x1 H Wd dt tiles w
              Hmap Hne Hsh E3 E4 Hload) as (img & Hrun & Hshape & Hdt & Hlen & Hpix).
  destruct (assemble_chunk_sum_pixels bi tile_map' y0 y1 x0 x1 H Wd dt tiles' w
              Hmap' Hne' Hsh E3 E4 Hload') as (img' & Hrun' & Hshape' & Hdt' & Hlen' & Hpix').
  exists img. split; [exact Hrun|]. rewrite Hrun'. do 2 f_equal.
  destruct img as [d s l], img' as [d' s' l']. cbn [shape dtype data] in *.
  f_equal; try congruence.
  apply nth_ext with (d := 0) (d' := 0); [congruence|].
  intros q Hq. rewrite Hlen' in Hq.
  destruct (pixel_of_index H Wd q Hq) as (r & c & Hr & Hc & ->).
  rewrite Hpix, Hpix' by assumption. f_equal.
  apply Zsum_permutation, Permutation_map. now symmetry.
Qed.

(** The end-to-end tiles in both orders. *)
Lemma assemble_chunk_sum_order_free_witness :
  exists img,
    assemble_chunk block_4x6 (tile_map_AB uint16) (translate_tiles_2d skimage_warp)
      (pure_fuse fuse_sum) uint16 tt = (Ok img, tt)
    /\ assemble_chunk block_4x6 (tile_map_BA uint16) (translate_tiles_2d skimage_warp)
         (pure_fuse fuse_sum) uint16 tt = (Ok img, tt).
Proof.
  apply (assemble_chunk_sum_order_free (W := unit) block_4x6 (tile_map_AB uint16)
           (tile_map_BA uint16) 0 4 0 6 4 6 uint16
           [tile_A uint16; tile_B uint16] [tile_B uint16; tile_A uint16] tt).
  - reflexivity.
  - reflexivity.
  - apply perm_swap.
  - discriminate.
  - reflexivity.
  - reflexivity.
  - reflexivity.
  - repeat constructor; apply const_tile_loadable; vm_compute; reflexivity.
Defined.
